(** * Scholarship optimizer (src/app.py): evaluator and two-stage search

    Shallow embedding of [optimize_scholarship] and of its nested
    [calculate_scenario].

    Numbers.  Python's numbers are modelled by exact rationals [Q]: an int
    [n] is [inject_Z n], a decimal literal such as [0.12] is the fraction it
    denotes, and [float('inf')] is the constructor [Infinity] of [limit].
    Binary rounding of floats is not modelled: where rounding makes or
    breaks a tie between two net positions, a concrete output of the search
    can differ from the exact one, so the properties below are stated on
    order facts and on the structure of the scans, not on such outputs.
    [int(x)] truncates toward
    zero, [range] follows CPython's length computation, and the two-argument
    [min]/[max] return their first argument unless the second is strictly
    smaller/larger, as the builtins do.  Equality of money amounts is [==]
    on [Q]. *)

From Stdlib Require Import ZArith QArith Qminmax Qround List Bool Lia Lqa.
Import ListNotations.

Local Open Scope Q_scope.

(** ** Python builtins used by the source *)

Definition Qltb (x y : Q) : bool := negb (Qle_bool y x).

(** [max(a, b)]: [b] when [b > a], else [a]. *)
Definition py_max (a b : Q) : Q := if Qltb a b then b else a.

(** [min(a, b)]: [b] when [b < a], else [a]. *)
Definition py_min (a b : Q) : Q := if Qltb b a then b else a.

(** [int(x)]: truncation toward zero. *)
Definition py_int (x : Q) : Z := Z.quot (Qnum x) (Zpos (Qden x)).

(** [range(start, stop, step)] for [step > 0]: [len] is
    [(stop - start - 1) // step + 1] when [start < stop], else [0]. *)
Definition range_length (start stop step : Z) : Z :=
  if (start <? stop)%Z then ((stop - start - 1) / step + 1)%Z else 0%Z.

Fixpoint range_from (start step : Z) (n : nat) : list Z :=
  match n with
  | O => []
  | S n' => start :: range_from (start + step)%Z step n'
  end.

Definition py_range (start stop step : Z) : list Z :=
  range_from start step (Z.to_nat (range_length start stop step)).

(** Upper bound of a bracket: a number or [float('inf')]. *)
Inductive limit : Type :=
| Finite (q : Q)
| Infinity.

(** [limit - prev_limit].  In the bracket table the unbounded bracket is the
    last one ([unbounded_only_last]), so [prev_limit] is finite whenever the
    subtraction is evaluated; the case of a finite limit after an unbounded
    one never arises and is listed only to keep the function total. *)
Definition limit_sub (l prev : limit) : limit :=
  match l, prev with
  | Finite a, Finite b => Finite (a - b)
  | Infinity, _ => Infinity
  | Finite a, Infinity => Finite a
  end.

(** [min(remaining, width)] where [width] may be infinite. *)
Definition min_limit (remaining : Q) (width : limit) : Q :=
  match width with
  | Finite w => py_min remaining w
  | Infinity => remaining
  end.

(** ** Inputs and results *)

Record ScenarioInputs : Type := mkInputs {
  box_1_tuition : Q;
  box_5_scholarship : Q;
  sch1_line_8r_current : Q;
  form1040_line_11_agi : Q;
  ncd400_line_14_taxable : Q;
  nc_tax_rate : Q
}.

Record ScenarioResult : Type := mkResult {
  inclusion : Q;
  net_position : Q;
  fed_tax : Q;
  nc_tax : Q;
  credit : Q;
  agi : Q;
  expenses_to_claim : Q
}.

(** ** 1. Constants *)

Definition FED_STD_DEDUCTION : Q := 15750.
Definition NC_STD_DEDUCTION : Q := 12750.

Definition FED_BRACKETS : list (limit * Q) :=
  [ (Finite 11925, 10 # 100);
    (Finite 48475, 12 # 100);
    (Finite 103350, 22 # 100);
    (Infinity, 24 # 100) ].

(** Only the last bracket may be unbounded. *)
Fixpoint unbounded_only_last (brackets : list (limit * Q)) : bool :=
  match brackets with
  | [] => true
  | (Finite _, _) :: rest => unbounded_only_last rest
  | (Infinity, _) :: rest => match rest with [] => true | _ :: _ => false end
  end.

(** ** 2. Calibration *)

Definition state_adjustment_factor (i : ScenarioInputs) : Q :=
  if Qltb 0 (ncd400_line_14_taxable i)
  then ncd400_line_14_taxable i - (form1040_line_11_agi i - NC_STD_DEDUCTION)
  else 0.

Definition base_fed_income (i : ScenarioInputs) : Q :=
  form1040_line_11_agi i - sch1_line_8r_current i.

(** ** 3. Calculation engine *)

(** The [for limit, rate in FED_BRACKETS] loop with its [break]; the
    arguments are the loop variables [fed_tax], [remaining], [prev_limit]. *)
Fixpoint bracket_loop (brackets : list (limit * Q))
         (fed_tax remaining : Q) (prev_limit : limit) : Q :=
  match brackets with
  | [] => fed_tax
  | (lim, rate) :: rest =>
      let bracket_amt := min_limit remaining (limit_sub lim prev_limit) in
      let fed_tax := fed_tax + bracket_amt * rate in
      let remaining := remaining - bracket_amt in
      if Qle_bool remaining 0 then fed_tax
      else bracket_loop rest fed_tax remaining lim
  end.

(** Lines 38-46: federal tax on a taxable income. *)
Definition federal_tax (fed_taxable : Q) : Q :=
  bracket_loop FED_BRACKETS 0 fed_taxable (Finite 0).

Definition calculate_scenario (i : ScenarioInputs) (inclusion_amount : Q)
  : ScenarioResult :=
  let inclusion_amount :=
    if Qltb (box_5_scholarship i) inclusion_amount
    then box_5_scholarship i else inclusion_amount in
  let new_agi := base_fed_income i + inclusion_amount in
  let fed_taxable := py_max 0 (new_agi - FED_STD_DEDUCTION) in
  let fed_tax := federal_tax fed_taxable in
  let nc_taxable_calc :=
    new_agi - NC_STD_DEDUCTION + state_adjustment_factor i in
  let nc_taxable := py_max 0 nc_taxable_calc in
  let nc_tax := nc_taxable * nc_tax_rate i in
  let tax_free_scholarship := py_max 0 (box_5_scholarship i - inclusion_amount) in
  let qualified_expenses := py_max 0 (box_1_tuition i - tax_free_scholarship) in
  let potential_credit := py_min 2000 (qualified_expenses * (20 # 100)) in
  let usable_credit := py_min potential_credit fed_tax in
  let net_position := usable_credit - (fed_tax + nc_tax) in
  {| inclusion := inclusion_amount;
     net_position := net_position;
     fed_tax := fed_tax;
     nc_tax := nc_tax;
     credit := usable_credit;
     agi := new_agi;
     expenses_to_claim := qualified_expenses |}.

(** ** 4. Optimization loop *)

Definition min_inclusion (i : ScenarioInputs) : Q :=
  py_max 0 (box_5_scholarship i - box_1_tuition i).

Definition coarse_step : Z := 100.

(** [list(range(int(min_inclusion), int(box_5), coarse_step))] followed by
    the appended [box_5_scholarship]. *)
Definition coarse_steps (i : ScenarioInputs) : list Q :=
  map inject_Z
      (py_range (py_int (min_inclusion i)) (py_int (box_5_scholarship i))
                coarse_step)
  ++ [box_5_scholarship i].

Definition safe_baseline_inclusion (i : ScenarioInputs) : Q :=
  py_max (sch1_line_8r_current i) (min_inclusion i).

(** Body of the stage-1 loop: replace on strict improvement. *)
Definition coarse_update (i : ScenarioInputs) (best_coarse : ScenarioResult)
           (inc : Q) : ScenarioResult :=
  let res := calculate_scenario i inc in
  if Qltb (net_position best_coarse) (net_position res) then res
  else best_coarse.

Definition best_coarse (i : ScenarioInputs) : ScenarioResult :=
  fold_left (coarse_update i) (coarse_steps i)
            (calculate_scenario i (safe_baseline_inclusion i)).

Definition best_coarse_val (i : ScenarioInputs) : Q :=
  inclusion (best_coarse i).

Definition start_fine (i : ScenarioInputs) : Z :=
  Z.max (py_int (min_inclusion i)) (py_int (best_coarse_val i) - coarse_step).

Definition end_fine (i : ScenarioInputs) : Z :=
  Z.min (py_int (box_5_scholarship i)) (py_int (best_coarse_val i) + coarse_step).

(** [range(start_fine, end_fine + 1)]. *)
Definition fine_steps (i : ScenarioInputs) : list Q :=
  map inject_Z (py_range (start_fine i) (end_fine i + 1) 1).

(** Body of the stage-2 loop: replace on non-strict improvement. *)
Definition fine_update (i : ScenarioInputs) (best_final : ScenarioResult)
           (inc : Q) : ScenarioResult :=
  let res := calculate_scenario i inc in
  if Qle_bool (net_position best_final) (net_position res) then res
  else best_final.

Definition best_final (i : ScenarioInputs) : ScenarioResult :=
  fold_left (fine_update i) (fine_steps i) (best_coarse i).

Definition manual_result (i : ScenarioInputs) : ScenarioResult :=
  calculate_scenario i (sch1_line_8r_current i).

(** Returns [(manual_result, best_final)]. *)
Definition optimize_scholarship (i : ScenarioInputs)
  : ScenarioResult * ScenarioResult :=
  (manual_result i, best_final i).

(** The inclusion amounts handed to the evaluator during the search: the
    seed, the coarse candidates and the fine candidates. *)
Definition search_candidates (i : ScenarioInputs) : list Q :=
  safe_baseline_inclusion i :: coarse_steps i ++ fine_steps i.

(** ** Presentation layer: the decision of lines 128-131 *)

(** [diff = best['net_position'] - current['net_position']]. *)
Definition diff (i : ScenarioInputs) : Q :=
  let (current, best) := optimize_scholarship i in
  net_position best - net_position current.

(** [if diff > 5]: the opportunity branch is taken; otherwise the return is
    reported as already optimized. *)
Definition opportunity_found (i : ScenarioInputs) : bool :=
  Qltb 5 (diff i).

(** ** Sample returns *)

(** The draft return preset in the input form. *)
Definition draft_return : ScenarioInputs :=
  mkInputs 13552 14235 7900 29639 16889 (425 # 10000).

(** A return without state filing: the draft return with a zero state
    taxable income. *)
Definition no_state_filing : ScenarioInputs :=
  mkInputs 13552 14235 7900 29639 0 (425 # 10000).

(** A draft whose declared amount 100 lies below the legal floor 683. *)
Definition below_floor_draft : ScenarioInputs :=
  mkInputs 13552 14235 100 29639 16889 (425 # 10000).

(** Scholarship 1000.50 against tuition 1000: the mandatory excess is half a
    currency unit. *)
Definition fractional_excess : ScenarioInputs :=
  mkInputs 1000 (2001 # 2) (1 # 2) 100000 0 0.

(** Tuition above a scholarship that is not a multiple of the coarse step. *)
Definition tuition_above_scholarship : ScenarioInputs :=
  mkInputs 15000 14235 7900 29639 16889 (425 # 10000).

(** A student whose income stays below the standard deductions: every
    inclusion amount yields a zero net position. *)
Definition untaxed_student : ScenarioInputs :=
  mkInputs 300 300 0 0 0 0.

(** No state filing and an AGI of 12749 at the legal floor 10: the net
    position is 0 at the inclusions 10 and 11 and negative above, since the
    state tax starts once the AGI exceeds 12750. *)
Definition two_way_tie : ScenarioInputs :=
  mkInputs 1000 1010 10 12749 0 (5 # 100).

(** State tax driven by the recomputed AGI alone: the flat rate applied to
    [max(0, agi - 12750)], positive as soon as the AGI exceeds 12750. *)
Definition taxed_on_agi_alone (i : ScenarioInputs) (r : ScenarioResult) : Prop :=
  nc_tax r == Qmax 0 (agi r - 12750) * nc_tax_rate i /\
  (12750 < agi r -> 0 < nc_tax r).

(** ** Reference definitions, written from the specification's words *)

(** The ordered bracket table of the specification. *)
Definition spec_bracket_table : list (limit * Q) :=
  [ (Finite 11925, 1 # 10);
    (Finite 48475, 12 # 100);
    (Finite 103350, 22 # 100);
    (Infinity, 24 # 100) ].

(** Upper bound minus previous upper bound; unbounded for the last band. *)
Definition band_width (upper_bound : limit) (previous_upper_bound : Q) : limit :=
  match upper_bound with
  | Finite u => Finite (u - previous_upper_bound)
  | Infinity => Infinity
  end.

Fixpoint later_band_widths (previous_upper_bound : Q)
         (table : list (limit * Q)) : list (limit * Q) :=
  match table with
  | [] => []
  | (upper_bound, band_rate) :: later =>
      (band_width upper_bound previous_upper_bound, band_rate)
        :: match upper_bound with
           | Finite u => later_band_widths u later
           | Infinity => []
           end
  end.

(** The first band's width is its upper bound. *)
Definition band_widths (table : list (limit * Q)) : list (limit * Q) :=
  match table with
  | [] => []
  | (Finite u, band_rate) :: later =>
      (Finite u, band_rate) :: later_band_widths u later
  | (Infinity, band_rate) :: _ => [(Infinity, band_rate)]
  end.

(** [min(remaining_taxable, band_width)]. *)
Definition consumed (remaining_taxable : Q) (width : limit) : Q :=
  match width with
  | Finite w => Qmin remaining_taxable w
  | Infinity => remaining_taxable
  end.

(** Sum over the bands, in order, of [min(remaining, width) * rate]; the
    remainder decreases by each consumed amount and the sum stops once it
    is exhausted. *)
Fixpoint progressive_tax (bands : list (limit * Q)) (remaining_taxable : Q) : Q :=
  match bands with
  | [] => 0
  | (width, band_rate) :: later =>
      let amount := consumed remaining_taxable width in
      amount * band_rate
      + (if Qle_bool (remaining_taxable - amount) 0 then 0
         else progressive_tax later (remaining_taxable - amount))
  end.

Definition reference_federal_tax (taxable : Q) : Q :=
  progressive_tax (band_widths spec_bracket_table) taxable.

(** Closed form of the tax on the four bands. *)
Definition piecewise_federal_tax (taxable : Q) : Q :=
  if Qle_bool taxable 11925 then taxable * (10 # 100)
  else if Qle_bool taxable 48475
       then (11925 # 10) + (taxable - 11925) * (12 # 100)
  else if Qle_bool taxable 103350
       then (11925 # 10) + 4386 + (taxable - 48475) * (22 # 100)
  else (11925 # 10) + 4386 + (120725 # 10) + (taxable - 103350) * (24 # 100).

(** ** Input domains *)

(** All six inputs non-negative. *)
Definition non_negative_inputs (i : ScenarioInputs) : Prop :=
  0 <= box_1_tuition i /\ 0 <= box_5_scholarship i /\
  0 <= sch1_line_8r_current i /\ 0 <= form1040_line_11_agi i /\
  0 <= ncd400_line_14_taxable i /\ 0 <= nc_tax_rate i.

(** Non-negative inputs with a state rate in [[0, 1]]. *)
Definition valid_inputs (i : ScenarioInputs) : Prop :=
  non_negative_inputs i /\ nc_tax_rate i <= 1.

(** * Properties *)

(** ** Comparisons and the builtins *)

Lemma Qltb_true (x y : Q) : Qltb x y = true <-> x < y.
Proof.
  unfold Qltb. rewrite negb_true_iff.
  destruct (Qle_bool y x) eqn:E.
  - apply Qle_bool_iff in E. split; [discriminate | intro; lra].
  - split; [intros _ | reflexivity].
    apply Qnot_le_lt. intro H. apply Qle_bool_iff in H. congruence.
Qed.

Lemma Qltb_false (x y : Q) : Qltb x y = false <-> y <= x.
Proof.
  unfold Qltb. rewrite negb_false_iff. apply Qle_bool_iff.
Qed.

Lemma Qle_bool_false (x y : Q) : Qle_bool x y = false <-> y < x.
Proof.
  rewrite <- Qltb_true. unfold Qltb. now rewrite negb_true_iff.
Qed.

Lemma Qltb_cases (x y : Q) :
  (Qltb x y = true /\ x < y) \/ (Qltb x y = false /\ y <= x).
Proof.
  destruct (Qltb x y) eqn:E; [left | right]; split; trivial.
  - now apply Qltb_true.
  - now apply Qltb_false.
Qed.

Lemma Qle_bool_cases (x y : Q) :
  (Qle_bool x y = true /\ x <= y) \/ (Qle_bool x y = false /\ y < x).
Proof.
  destruct (Qle_bool x y) eqn:E; [left | right]; split; trivial.
  - now apply Qle_bool_iff.
  - now apply Qle_bool_false.
Qed.

(** Split on every comparison of the goal, keeping the order facts. *)
Ltac split_cmp :=
  repeat match goal with
    | |- context [Qltb ?x ?y] =>
        let E := fresh "E" in let H := fresh "H" in
        destruct (Qltb_cases x y) as [[E H] | [E H]]; rewrite E
    | |- context [Qle_bool ?x ?y] =>
        let E := fresh "E" in let H := fresh "H" in
        destruct (Qle_bool_cases x y) as [[E H] | [E H]]; rewrite E
    end.

Lemma py_max_cases (a b : Q) :
  (a < b /\ py_max a b = b) \/ (b <= a /\ py_max a b = a).
Proof. unfold py_max. split_cmp; auto. Qed.

Lemma py_min_cases (a b : Q) :
  (b < a /\ py_min a b = b) \/ (a <= b /\ py_min a b = a).
Proof. unfold py_min. split_cmp; auto. Qed.

Lemma py_max_l (a b : Q) : a <= py_max a b.
Proof. destruct (py_max_cases a b) as [[? ->] | [? ->]]; lra. Qed.

Lemma py_max_r (a b : Q) : b <= py_max a b.
Proof. destruct (py_max_cases a b) as [[? ->] | [? ->]]; lra. Qed.

Lemma py_max_keep (a b : Q) : b <= a -> py_max a b = a.
Proof. destruct (py_max_cases a b) as [[? ->] | [? ->]]; trivial; lra. Qed.

Lemma py_max_mono (a b c : Q) : b <= c -> py_max a b <= py_max a c.
Proof.
  destruct (py_max_cases a b) as [[? ->] | [? ->]];
    destruct (py_max_cases a c) as [[? ->] | [? ->]]; lra.
Qed.

Lemma py_min_l (a b : Q) : py_min a b <= a.
Proof. destruct (py_min_cases a b) as [[? ->] | [? ->]]; lra. Qed.

Lemma py_min_r (a b : Q) : py_min a b <= b.
Proof. destruct (py_min_cases a b) as [[? ->] | [? ->]]; lra. Qed.

Lemma py_min_glb (a b c : Q) : c <= a -> c <= b -> c <= py_min a b.
Proof. destruct (py_min_cases a b) as [[? ->] | [? ->]]; lra. Qed.

Lemma py_min_mono (a b c d : Q) :
  a <= c -> b <= d -> py_min a b <= py_min c d.
Proof.
  intros. apply py_min_glb.
  - pose proof (py_min_l a b); lra.
  - pose proof (py_min_r a b); lra.
Qed.

(** ** Federal tax: the bracket loop *)

Lemma FED_BRACKETS_unbounded_only_last :
  unbounded_only_last FED_BRACKETS = true.
Proof. reflexivity. Qed.

Lemma py_min_Qmin (a b : Q) : py_min a b == Qmin a b.
Proof.
  destruct (py_min_cases a b) as [[H ->] | [H ->]].
  - symmetry. apply Q.min_r. lra.
  - symmetry. apply Q.min_l. lra.
Qed.

Lemma federal_tax_piecewise (taxable : Q) :
  0 <= taxable -> federal_tax taxable == piecewise_federal_tax taxable.
Proof.
  intros Hpos.
  unfold federal_tax, piecewise_federal_tax, FED_BRACKETS, bracket_loop,
    min_limit, limit_sub, py_min.
  split_cmp; lra.
Qed.

(** [Qmin] and the builtin [min] select the same argument. *)
Lemma Qmin_py_min (a b : Q) : Qmin a b = py_min a b.
Proof.
  unfold Qmin, GenericMinMax.gmin.
  destruct (py_min_cases a b) as [[H ->] | [H ->]];
    destruct (Qcompare_spec a b) as [E | E | E]; trivial; lra.
Qed.

Lemma reference_piecewise (taxable : Q) :
  0 <= taxable ->
  reference_federal_tax taxable == piecewise_federal_tax taxable.
Proof.
  intros Hpos.
  unfold reference_federal_tax, piecewise_federal_tax, spec_bracket_table,
    band_widths, later_band_widths, band_width, progressive_tax, consumed.
  rewrite !Qmin_py_min. unfold py_min.
  split_cmp; lra.
Qed.

(** C1. For every non-negative federal taxable income, the federal tax
    computed by the evaluator's bracket loop equals the progressive-bracket
    reference of the specification: the sum over the ordered table
    [(11925, 0.10); (48475, 0.12); (103350, 0.22); (inf, 0.24)] of
    [min(remaining, width) * rate], the remainder decreasing by each consumed
    amount, the sum stopping once it is exhausted, with the first width the
    first upper bound and each later width the difference of consecutive
    upper bounds. *)
Theorem federal_tax_matches_reference (taxable : Q) :
  0 <= taxable -> federal_tax taxable == reference_federal_tax taxable.
Proof.
  intros Hpos.
  rewrite federal_tax_piecewise, reference_piecewise by assumption.
  reflexivity.
Qed.

Lemma federal_tax_matches_reference_witness :
  0 <= 13699 /\ federal_tax 13699 == reference_federal_tax 13699.
Proof.
  split; [lra | apply (federal_tax_matches_reference 13699); lra].
Defined.

(** The evaluator taxes [max(0, new_agi - FED_STD_DEDUCTION)], which is never
    negative. *)
Lemma scenario_fed_tax (i : ScenarioInputs) (x : Q) :
  let r := calculate_scenario i x in
  0 <= py_max 0 (agi r - FED_STD_DEDUCTION) /\
  fed_tax r = federal_tax (py_max 0 (agi r - FED_STD_DEDUCTION)).
Proof.
  simpl. split; [apply py_max_l | reflexivity].
Qed.

Lemma piecewise_federal_tax_nonneg (taxable : Q) :
  0 <= taxable -> 0 <= piecewise_federal_tax taxable.
Proof.
  intros Hpos. unfold piecewise_federal_tax. split_cmp; lra.
Qed.

Lemma piecewise_federal_tax_mono (t1 t2 : Q) :
  0 <= t1 -> t1 <= t2 ->
  piecewise_federal_tax t1 <= piecewise_federal_tax t2.
Proof.
  intros Hpos Hle. unfold piecewise_federal_tax. split_cmp; lra.
Qed.

Lemma federal_tax_nonneg (taxable : Q) :
  0 <= taxable -> 0 <= federal_tax taxable.
Proof.
  intros Hpos. rewrite federal_tax_piecewise by assumption.
  now apply piecewise_federal_tax_nonneg.
Qed.

Lemma federal_tax_mono (t1 t2 : Q) :
  0 <= t1 -> t1 <= t2 -> federal_tax t1 <= federal_tax t2.
Proof.
  intros Hpos Hle.
  rewrite !federal_tax_piecewise by lra.
  now apply piecewise_federal_tax_mono.
Qed.

(** ** The evaluator *)

(** The clamp of lines 32-33. *)
Lemma inclusion_clamped (i : ScenarioInputs) (x : Q) :
  (box_5_scholarship i < x /\
   inclusion (calculate_scenario i x) = box_5_scholarship i) \/
  (x <= box_5_scholarship i /\ inclusion (calculate_scenario i x) = x).
Proof.
  simpl. split_cmp; auto.
Qed.

Lemma inclusion_le_scholarship (i : ScenarioInputs) (x : Q) :
  inclusion (calculate_scenario i x) <= box_5_scholarship i.
Proof.
  destruct (inclusion_clamped i x) as [[H ->] | [H ->]]; lra.
Qed.

Lemma inclusion_mono (i : ScenarioInputs) (x y : Q) :
  x <= y ->
  inclusion (calculate_scenario i x) <= inclusion (calculate_scenario i y).
Proof.
  intros Hxy.
  destruct (inclusion_clamped i x) as [[Hx ->] | [Hx ->]];
    destruct (inclusion_clamped i y) as [[Hy ->] | [Hy ->]]; lra.
Qed.

(** Every field of a scenario is a function of its clamped inclusion. *)
Lemma scenario_fields (i : ScenarioInputs) (x : Q) :
  let r := calculate_scenario i x in
  agi r = base_fed_income i + inclusion r /\
  fed_tax r = federal_tax (py_max 0 (agi r - FED_STD_DEDUCTION)) /\
  nc_tax r =
    py_max 0 (agi r - NC_STD_DEDUCTION + state_adjustment_factor i)
    * nc_tax_rate i /\
  expenses_to_claim r =
    py_max 0 (box_1_tuition i
              - py_max 0 (box_5_scholarship i - inclusion r)) /\
  credit r =
    py_min (py_min 2000 (expenses_to_claim r * (20 # 100))) (fed_tax r) /\
  net_position r = credit r - (fed_tax r + nc_tax r).
Proof.
  simpl. repeat split; reflexivity.
Qed.

(** C2. For non-negative inputs with a state rate in [[0, 1]] and a
    non-negative candidate inclusion amount, the scenario computed by the
    evaluator satisfies [0 <= inclusion <= scholarship_total],
    [federal_tax >= 0], [state_tax >= 0],
    [0 <= credit <= min(2000, 0.20 * expenses_to_claim)] and
    [expenses_to_claim >= 0]. *)
Theorem scenario_invariant (i : ScenarioInputs) (x : Q) :
  valid_inputs i -> 0 <= x ->
  let r := calculate_scenario i x in
  (0 <= inclusion r /\ inclusion r <= box_5_scholarship i) /\
  0 <= fed_tax r /\
  0 <= nc_tax r /\
  (0 <= credit r /\
   credit r <= Qmin 2000 ((20 # 100) * expenses_to_claim r)) /\
  0 <= expenses_to_claim r.
Proof.
  intros [(H1 & H5 & Hc & Ha & Hs & Hr0) Hr1] Hx r.
  destruct (scenario_fields i x) as (Eagi & Efed & Enc & Eexp & Ecred & _).
  fold r in Eagi, Efed, Enc, Eexp, Ecred.
  assert (Hfed : 0 <= fed_tax r).
  { rewrite Efed. apply federal_tax_nonneg, py_max_l. }
  assert (Hexp : 0 <= expenses_to_claim r).
  { rewrite Eexp. apply py_max_l. }
  repeat split; trivial.
  - unfold r. destruct (inclusion_clamped i x) as [[H ->] | [H ->]]; lra.
  - apply inclusion_le_scholarship.
  - rewrite Enc. apply Qmult_le_0_compat; [apply py_max_l | assumption].
  - rewrite Ecred. apply py_min_glb; [apply py_min_glb | assumption]; lra.
  - rewrite Ecred, Qmin_py_min.
    eapply Qle_trans; [apply py_min_l |].
    apply py_min_mono; lra.
Qed.

(** Decides order facts between rational literals. *)
Ltac literal_order :=
  repeat split; cbv -[Z.le Z.lt Z.mul]; simpl; lia.

Lemma scenario_invariant_witness :
  valid_inputs draft_return /\ 0 <= 7710 /\
  let r := calculate_scenario draft_return 7710 in
  (0 <= inclusion r /\ inclusion r <= box_5_scholarship draft_return) /\
  0 <= fed_tax r /\
  0 <= nc_tax r /\
  (0 <= credit r /\
   credit r <= Qmin 2000 ((20 # 100) * expenses_to_claim r)) /\
  0 <= expenses_to_claim r.
Proof.
  assert (Hv : valid_inputs draft_return) by literal_order.
  assert (Hx : 0 <= 7710) by literal_order.
  exact (conj Hv (conj Hx (scenario_invariant draft_return 7710 Hv Hx))).
Defined.

(** C7. With non-negative inputs and a state rate in [[0, 1]], and the other
    inputs fixed, federal tax, state tax and usable credit are each
    non-decreasing in the candidate inclusion amount, from 0 upward and
    across the clamp at [scholarship_total]. *)
Theorem taxes_and_credit_monotone (i : ScenarioInputs) (x y : Q) :
  valid_inputs i -> 0 <= x -> x <= y ->
  fed_tax (calculate_scenario i x) <= fed_tax (calculate_scenario i y) /\
  nc_tax (calculate_scenario i x) <= nc_tax (calculate_scenario i y) /\
  credit (calculate_scenario i x) <= credit (calculate_scenario i y).
Proof.
  intros [(H1 & H5 & Hc & Ha & Hs & Hr0) Hr1] Hx Hxy.
  pose proof (inclusion_mono i x y Hxy) as Hinc.
  destruct (scenario_fields i x) as (Ax & Fx & Nx & Ex & Cx & _).
  destruct (scenario_fields i y) as (Ay & Fy & Ny & Ey & Cy & _).
  set (rx := calculate_scenario i x) in *.
  set (ry := calculate_scenario i y) in *.
  assert (Hagi : agi rx <= agi ry) by (rewrite Ax, Ay; lra).
  assert (Hfed : fed_tax rx <= fed_tax ry).
  { rewrite Fx, Fy. apply federal_tax_mono; [apply py_max_l |].
    apply py_max_mono. lra. }
  assert (Hexp : expenses_to_claim rx <= expenses_to_claim ry).
  { rewrite Ex, Ey. apply py_max_mono.
    assert (py_max 0 (box_5_scholarship i - inclusion ry)
            <= py_max 0 (box_5_scholarship i - inclusion rx))
      by (apply py_max_mono; lra).
    lra. }
  repeat split.
  - exact Hfed.
  - rewrite Nx, Ny. apply Qmult_le_compat_r; [| assumption].
    apply py_max_mono. lra.
  - rewrite Cx, Cy. apply py_min_mono; [| assumption].
    apply py_min_mono; lra.
Qed.

Lemma taxes_and_credit_monotone_witness :
  valid_inputs draft_return /\ 0 <= 7710 /\ 7710 <= 7900 /\
  fed_tax (calculate_scenario draft_return 7710)
    <= fed_tax (calculate_scenario draft_return 7900) /\
  nc_tax (calculate_scenario draft_return 7710)
    <= nc_tax (calculate_scenario draft_return 7900) /\
  credit (calculate_scenario draft_return 7710)
    <= credit (calculate_scenario draft_return 7900).
Proof.
  assert (Hv : valid_inputs draft_return) by literal_order.
  assert (Hx : 0 <= 7710) by literal_order.
  assert (Hxy : 7710 <= 7900) by literal_order.
  exact (conj Hv (conj Hx (conj Hxy
    (taxes_and_credit_monotone draft_return 7710 7900 Hv Hx Hxy)))).
Defined.

(** ** Calibration *)

(** C9. For non-negative inputs with [state_taxable_income > 0] and
    [current_inclusion <= scholarship_total], the adjustment factor
    [state_taxable_income - (federal_agi - 12750)] makes the baseline
    consistent: the evaluator at [current_inclusion] yields a state tax equal
    to [state_taxable_income * state_tax_rate]; and when
    [state_taxable_income] is zero the adjustment factor is zero. *)
Theorem calibration_consistent (i : ScenarioInputs) :
  non_negative_inputs i ->
  (0 < ncd400_line_14_taxable i ->
   sch1_line_8r_current i <= box_5_scholarship i ->
   state_adjustment_factor i
     == ncd400_line_14_taxable i - (form1040_line_11_agi i - 12750) /\
   nc_tax (calculate_scenario i (sch1_line_8r_current i))
     == ncd400_line_14_taxable i * nc_tax_rate i) /\
  (ncd400_line_14_taxable i == 0 -> state_adjustment_factor i = 0).
Proof.
  intros _. split.
  - intros Hs Hc.
    assert (Hsaf : state_adjustment_factor i
                   = ncd400_line_14_taxable i
                     - (form1040_line_11_agi i - NC_STD_DEDUCTION)).
    { unfold state_adjustment_factor.
      now rewrite (proj2 (Qltb_true _ _) Hs). }
    split; [rewrite Hsaf; unfold NC_STD_DEDUCTION; reflexivity |].
    destruct (scenario_fields i (sch1_line_8r_current i))
      as (Eagi & _ & Enc & _).
    destruct (inclusion_clamped i (sch1_line_8r_current i))
      as [[H _] | [_ Einc]]; [lra |].
    rewrite Enc, Eagi, Einc, Hsaf.
    unfold base_fed_income.
    match goal with
    | |- py_max 0 ?e * _ == _ =>
        destruct (py_max_cases 0 e) as [[_ ->] | [Hneg _]]
    end.
    + apply Qmult_comp; [ring | reflexivity].
    + exfalso. lra.
  - intros Hz. unfold state_adjustment_factor.
    rewrite (proj2 (Qltb_false 0 (ncd400_line_14_taxable i))); trivial.
    rewrite Hz. lra.
Qed.

Lemma calibration_consistent_witness :
  non_negative_inputs draft_return /\
  (0 < ncd400_line_14_taxable draft_return /\
   sch1_line_8r_current draft_return <= box_5_scholarship draft_return /\
   nc_tax (calculate_scenario draft_return 7900) == 16889 * (425 # 10000)) /\
  non_negative_inputs no_state_filing /\
  ncd400_line_14_taxable no_state_filing == 0 /\
  state_adjustment_factor no_state_filing = 0.
Proof.
  assert (Hd : non_negative_inputs draft_return) by literal_order.
  assert (Hn : non_negative_inputs no_state_filing) by literal_order.
  assert (Hs : 0 < ncd400_line_14_taxable draft_return) by literal_order.
  assert (Hc : sch1_line_8r_current draft_return
               <= box_5_scholarship draft_return) by literal_order.
  assert (Hz : ncd400_line_14_taxable no_state_filing == 0) by reflexivity.
  exact (conj Hd (conj
    (conj Hs (conj Hc
       (proj2 (proj1 (calibration_consistent draft_return Hd) Hs Hc))))
    (conj Hn (conj Hz
       (proj2 (calibration_consistent no_state_filing Hn) Hz))))).
Defined.

(** ** The as-filed scenario *)

Lemma min_inclusion_cases (i : ScenarioInputs) :
  (box_5_scholarship i <= box_1_tuition i /\ min_inclusion i = 0) \/
  (box_1_tuition i < box_5_scholarship i /\
   min_inclusion i = box_5_scholarship i - box_1_tuition i).
Proof.
  unfold min_inclusion.
  destruct (py_max_cases 0 (box_5_scholarship i - box_1_tuition i))
    as [[H ->] | [H ->]]; [right | left]; split; trivial; lra.
Qed.

Lemma min_inclusion_bounds (i : ScenarioInputs) :
  non_negative_inputs i ->
  0 <= min_inclusion i /\ min_inclusion i <= box_5_scholarship i.
Proof.
  intros (H1 & H5 & _).
  destruct (min_inclusion_cases i) as [[H ->] | [H ->]]; lra.
Qed.

(** C5. For non-negative inputs, the returned [manual_result] is the
    evaluator applied to the unmodified [current_inclusion]; when
    [current_inclusion] is below the legal floor the result is still
    produced, it is the scenario at that below-floor value, and the floor
    replaces it only as the seed of the search. *)
Theorem manual_result_unmodified (i : ScenarioInputs) :
  non_negative_inputs i ->
  fst (optimize_scholarship i)
    = calculate_scenario i (sch1_line_8r_current i) /\
  (sch1_line_8r_current i < min_inclusion i ->
   inclusion (fst (optimize_scholarship i)) = sch1_line_8r_current i /\
   inclusion (fst (optimize_scholarship i)) < min_inclusion i /\
   safe_baseline_inclusion i = min_inclusion i).
Proof.
  intros Hnn. split; [reflexivity |].
  intros Hlow. simpl fst. unfold manual_result.
  destruct (min_inclusion_bounds i Hnn) as [_ Hmax].
  destruct (inclusion_clamped i (sch1_line_8r_current i))
    as [[H _] | [_ ->]]; [lra |].
  repeat split; trivial.
  unfold safe_baseline_inclusion.
  destruct (py_max_cases (sch1_line_8r_current i) (min_inclusion i))
    as [[_ ->] | [H _]]; [reflexivity | lra].
Qed.

Lemma manual_result_unmodified_witness :
  non_negative_inputs below_floor_draft /\
  sch1_line_8r_current below_floor_draft < min_inclusion below_floor_draft /\
  fst (optimize_scholarship below_floor_draft)
    = calculate_scenario below_floor_draft 100 /\
  inclusion (fst (optimize_scholarship below_floor_draft)) = 100 /\
  safe_baseline_inclusion below_floor_draft
    = min_inclusion below_floor_draft.
Proof.
  assert (Hnn : non_negative_inputs below_floor_draft) by literal_order.
  assert (Hlow : sch1_line_8r_current below_floor_draft
                 < min_inclusion below_floor_draft) by literal_order.
  destruct (manual_result_unmodified below_floor_draft Hnn) as [Hm Hf].
  destruct (Hf Hlow) as (Hi & _ & Hb).
  exact (conj Hnn (conj Hlow (conj Hm (conj Hi Hb)))).
Defined.

(** ** [range] and [int] *)

Lemma range_from_length (start step : Z) (n : nat) :
  length (range_from start step n) = n.
Proof.
  revert start. induction n as [| n IH]; intros start; simpl; auto.
Qed.

Lemma range_from_In (start step : Z) (n : nat) (z : Z) :
  In z (range_from start step n) <->
  exists k : nat, (k < n)%nat /\ z = (start + Z.of_nat k * step)%Z.
Proof.
  revert start. induction n as [| n IH]; intros start; simpl.
  - split; [tauto | intros (k & Hk & _); lia].
  - rewrite IH. split.
    + intros [<- | (k & Hk & ->)].
      * exists 0%nat. split; lia.
      * exists (S k). split; lia.
    + intros ([| k] & Hk & ->).
      * left. lia.
      * right. exists k. split; lia.
Qed.

Lemma range_length_nonneg (start stop step : Z) :
  (0 < step)%Z -> (0 <= range_length start stop step)%Z.
Proof.
  intros Hstep. unfold range_length.
  destruct (Z.ltb_spec start stop); [| lia].
  assert (0 <= (stop - start - 1) / step)%Z
    by (apply Z.div_pos; lia).
  lia.
Qed.

Lemma py_range_In (start stop step z : Z) :
  (0 < step)%Z ->
  In z (py_range start stop step) -> (start <= z < stop)%Z.
Proof.
  intros Hstep Hin. unfold py_range in Hin.
  apply range_from_In in Hin. destruct Hin as (k & Hk & ->).
  unfold range_length in Hk.
  destruct (Z.ltb_spec start stop) as [Hlt | Hge]; [| simpl in Hk; lia].
  assert (Hq : (0 <= (stop - start - 1) / step)%Z)
    by (apply Z.div_pos; lia).
  assert (Hm : (step * ((stop - start - 1) / step) <= stop - start - 1)%Z)
    by (apply Z.mul_div_le; lia).
  assert (Hk' : (Z.of_nat k <= (stop - start - 1) / step)%Z) by lia.
  split; [nia |].
  assert (Z.of_nat k * step <= step * ((stop - start - 1) / step))%Z by nia.
  lia.
Qed.

Lemma py_range_unit_In (start stop z : Z) :
  In z (py_range start stop 1) <-> (start <= z < stop)%Z.
Proof.
  split; [apply py_range_In; lia |].
  intros Hz. unfold py_range. apply range_from_In.
  exists (Z.to_nat (z - start)). unfold range_length.
  destruct (Z.ltb_spec start stop); [| lia].
  rewrite Z.div_1_r. split; lia.
Qed.

(** A [range] is strictly increasing. *)
Lemma range_from_split (start step : Z) (n : nat) (l1 l2 : list Z) (x : Z) :
  (0 < step)%Z ->
  range_from start step n = l1 ++ x :: l2 ->
  (forall y, In y l1 -> (y < x)%Z) /\ (forall y, In y l2 -> (x < y)%Z).
Proof.
  intros Hstep. revert start n.
  induction l1 as [| a l1 IH]; intros start n Heq.
  - destruct n as [| n]; simpl in Heq; [discriminate |].
    injection Heq as -> <-.
    split; [intros y [] |].
    intros y Hy. apply range_from_In in Hy.
    destruct Hy as (k & _ & ->). nia.
  - destruct n as [| n]; simpl in Heq; [discriminate |].
    injection Heq as <- Heq.
    destruct (IH _ _ Heq) as [Hl Hr].
    split; trivial.
    intros y [<- | Hy]; [| now apply Hl].
    assert (Hx : In x (range_from (start + step) step n))
      by (rewrite Heq; apply in_or_app; right; now left).
    apply range_from_In in Hx. destruct Hx as (k & _ & ->). nia.
Qed.

(** [int] of a non-negative amount is its floor. *)
Lemma py_int_floor (q : Q) : 0 <= q -> py_int q = Qfloor q.
Proof.
  intros Hq. unfold py_int. destruct q as [a b]. simpl.
  apply Z.quot_div_nonneg; [| lia].
  unfold Qle in Hq. simpl in Hq. lia.
Qed.

Lemma py_int_le (q : Q) : 0 <= q -> inject_Z (py_int q) <= q.
Proof.
  intros Hq. rewrite py_int_floor by assumption. apply Qfloor_le.
Qed.

Lemma py_int_nonneg (q : Q) : 0 <= q -> (0 <= py_int q)%Z.
Proof.
  intros Hq. rewrite py_int_floor by assumption.
  change 0%Z with (Qfloor 0). now apply Qfloor_resp_le.
Qed.

Lemma py_int_whole (q : Q) (m : Z) : q == inject_Z m -> py_int q = m.
Proof.
  intros Hq. unfold py_int. destruct q as [a b].
  unfold Qeq, inject_Z in Hq. simpl in *.
  rewrite Z.mul_1_r in Hq. subst a.
  apply Z.quot_mul. lia.
Qed.

(** An integer below an amount is below its [int]. *)
Lemma py_int_ge (q : Q) (z : Z) :
  0 <= q -> inject_Z z <= q -> (z <= py_int q)%Z.
Proof.
  intros Hq Hz. rewrite py_int_floor by assumption.
  rewrite <- (Qfloor_Z z). now apply Qfloor_resp_le.
Qed.

(** ** Scanning a candidate list *)

Section Scan.

Variable i : ScenarioInputs.

(** A loop body that keeps the running best or takes the new scenario, and
    never lowers the net position. *)
Variable update : ScenarioResult -> Q -> ScenarioResult.

Hypothesis update_choice :
  forall best inc,
    update best inc = best \/ update best inc = calculate_scenario i inc.

Hypothesis update_improves :
  forall best inc, net_position best <= net_position (update best inc).

Lemma scan_improves (candidates : list Q) (seed : ScenarioResult) :
  net_position seed <= net_position (fold_left update candidates seed).
Proof.
  revert seed. induction candidates as [| inc rest IH]; intros seed; simpl.
  - apply Qle_refl.
  - eapply Qle_trans; [apply update_improves | apply IH].
Qed.

Lemma scan_choice (candidates : list Q) (seed : ScenarioResult) :
  fold_left update candidates seed = seed \/
  exists inc, In inc candidates /\
              fold_left update candidates seed = calculate_scenario i inc.
Proof.
  revert seed. induction candidates as [| inc rest IH]; intros seed; simpl.
  - now left.
  - destruct (IH (update seed inc)) as [E | (x & Hx & E)].
    + rewrite E. destruct (update_choice seed inc) as [-> | ->].
      * now left.
      * right. exists inc. auto.
    + right. exists x. auto.
Qed.

End Scan.

Lemma coarse_update_cases (i : ScenarioInputs) (best : ScenarioResult) (inc : Q) :
  (net_position best < net_position (calculate_scenario i inc) /\
   coarse_update i best inc = calculate_scenario i inc) \/
  (net_position (calculate_scenario i inc) <= net_position best /\
   coarse_update i best inc = best).
Proof.
  unfold coarse_update.
  destruct (Qltb_cases (net_position best)
                       (net_position (calculate_scenario i inc)))
    as [[E H] | [E H]]; cbv zeta; rewrite E; auto.
Qed.

Lemma fine_update_cases (i : ScenarioInputs) (best : ScenarioResult) (inc : Q) :
  (net_position best <= net_position (calculate_scenario i inc) /\
   fine_update i best inc = calculate_scenario i inc) \/
  (net_position (calculate_scenario i inc) < net_position best /\
   fine_update i best inc = best).
Proof.
  unfold fine_update.
  destruct (Qle_bool_cases (net_position best)
                           (net_position (calculate_scenario i inc)))
    as [[E H] | [E H]]; cbv zeta; rewrite E; auto.
Qed.

Lemma coarse_update_choice (i : ScenarioInputs) best inc :
  coarse_update i best inc = best \/
  coarse_update i best inc = calculate_scenario i inc.
Proof. destruct (coarse_update_cases i best inc) as [[_ ->] | [_ ->]]; auto. Qed.

Lemma coarse_update_improves (i : ScenarioInputs) best inc :
  net_position best <= net_position (coarse_update i best inc).
Proof.
  destruct (coarse_update_cases i best inc) as [[H ->] | [H ->]]; lra.
Qed.

Lemma fine_update_choice (i : ScenarioInputs) best inc :
  fine_update i best inc = best \/
  fine_update i best inc = calculate_scenario i inc.
Proof. destruct (fine_update_cases i best inc) as [[_ ->] | [_ ->]]; auto. Qed.

Lemma fine_update_improves (i : ScenarioInputs) best inc :
  net_position best <= net_position (fine_update i best inc).
Proof.
  destruct (fine_update_cases i best inc) as [[H ->] | [H ->]]; lra.
Qed.

(** The coarse best is the scenario of the seed or of a coarse candidate. *)
Lemma best_coarse_choice (i : ScenarioInputs) :
  exists inc,
    In inc (safe_baseline_inclusion i :: coarse_steps i) /\
    best_coarse i = calculate_scenario i inc.
Proof.
  unfold best_coarse.
  destruct (scan_choice i (coarse_update i) (coarse_update_choice i)
              (coarse_steps i)
              (calculate_scenario i (safe_baseline_inclusion i)))
    as [E | (x & Hx & E)].
  - exists (safe_baseline_inclusion i). split; [now left | exact E].
  - exists x. split; [now right | exact E].
Qed.

(** The final best is the scenario of one of the search candidates. *)
Lemma best_final_choice (i : ScenarioInputs) :
  exists inc,
    In inc (search_candidates i) /\
    best_final i = calculate_scenario i inc.
Proof.
  unfold best_final, search_candidates.
  destruct (scan_choice i (fine_update i) (fine_update_choice i)
              (fine_steps i) (best_coarse i)) as [E | (x & Hx & E)].
  - destruct (best_coarse_choice i) as (c & [<- | Hc] & Ec);
      rewrite E, Ec.
    + eexists; split; [now left | reflexivity].
    + exists c. split; [| reflexivity].
      right. apply in_or_app. now left.
  - exists x. split; [| exact E].
    right. apply in_or_app. now right.
Qed.

(** ** The search never regresses below its seed *)

(** C4. For non-negative inputs with [current_inclusion >= min_inclusion],
    [best_result.net_position >= manual_result.net_position]: the coarse
    search is seeded with the scenario at [safe_baseline_inclusion], which is
    then the as-filed scenario, and both stages replace the running best only
    by scenarios whose net position is at least as high. *)
Theorem best_not_below_manual (i : ScenarioInputs) :
  non_negative_inputs i ->
  min_inclusion i <= sch1_line_8r_current i ->
  calculate_scenario i (safe_baseline_inclusion i)
    = fst (optimize_scholarship i) /\
  net_position (fst (optimize_scholarship i))
    <= net_position (best_coarse i) /\
  net_position (best_coarse i)
    <= net_position (snd (optimize_scholarship i)) /\
  net_position (fst (optimize_scholarship i))
    <= net_position (snd (optimize_scholarship i)).
Proof.
  intros _ Hfloor. simpl fst. simpl snd.
  assert (Hseed : calculate_scenario i (safe_baseline_inclusion i)
                  = manual_result i).
  { unfold safe_baseline_inclusion, manual_result.
    now rewrite py_max_keep. }
  assert (Hc : net_position (manual_result i)
               <= net_position (best_coarse i)).
  { rewrite <- Hseed. unfold best_coarse.
    apply scan_improves, coarse_update_improves. }
  assert (Hf : net_position (best_coarse i)
               <= net_position (best_final i)).
  { unfold best_final. apply scan_improves, fine_update_improves. }
  repeat split; trivial. lra.
Qed.

Lemma best_not_below_manual_witness :
  non_negative_inputs draft_return /\
  min_inclusion draft_return <= sch1_line_8r_current draft_return /\
  net_position (fst (optimize_scholarship draft_return))
    <= net_position (snd (optimize_scholarship draft_return)).
Proof.
  assert (Hnn : non_negative_inputs draft_return) by literal_order.
  assert (Hfl : min_inclusion draft_return
                <= sch1_line_8r_current draft_return) by literal_order.
  exact (conj Hnn (conj Hfl
    (proj2 (proj2 (proj2 (best_not_below_manual draft_return Hnn Hfl)))))).
Defined.

(** ** The search domain *)

Lemma coarse_steps_In (i : ScenarioInputs) (c : Q) :
  In c (coarse_steps i) ->
  c = box_5_scholarship i \/
  exists z, c = inject_Z z /\
            (py_int (min_inclusion i) <= z < py_int (box_5_scholarship i))%Z.
Proof.
  unfold coarse_steps. intros Hin.
  apply in_app_or in Hin. destruct Hin as [Hin | [<- | []]]; [| now left].
  apply in_map_iff in Hin. destruct Hin as (z & <- & Hz).
  right. exists z. split; [reflexivity |].
  apply py_range_In in Hz; [assumption | reflexivity].
Qed.

Lemma fine_steps_In (i : ScenarioInputs) (z : Z) :
  In (inject_Z z) (fine_steps i) <-> (start_fine i <= z <= end_fine i)%Z.
Proof.
  unfold fine_steps. rewrite in_map_iff. split.
  - intros (y & Hy & Hin). injection Hy as ->.
    apply py_range_unit_In in Hin. lia.
  - intros Hz. exists z. split; [reflexivity |].
    apply py_range_unit_In. lia.
Qed.

Lemma fine_steps_whole (i : ScenarioInputs) (c : Q) :
  In c (fine_steps i) -> exists z, c = inject_Z z /\ In (inject_Z z) (fine_steps i).
Proof.
  intros Hin. pose proof Hin as Hin'.
  unfold fine_steps in Hin'. apply in_map_iff in Hin'.
  destruct Hin' as (z & <- & _). exists z. auto.
Qed.

(** A whole amount up to [int(box_5_scholarship)] is not clamped. *)
Lemma whole_candidate_unclamped (i : ScenarioInputs) (z : Z) :
  0 <= box_5_scholarship i ->
  (z <= py_int (box_5_scholarship i))%Z ->
  inclusion (calculate_scenario i (inject_Z z)) = inject_Z z.
Proof.
  intros H5 Hz.
  destruct (inclusion_clamped i (inject_Z z)) as [[H _] | [_ E]]; trivial.
  exfalso. pose proof (py_int_le _ H5) as Hfl.
  rewrite Zle_Qle in Hz. lra.
Qed.

(** Every scenario of the search has its inclusion between
    [int(min_inclusion)] and [box_5_scholarship]. *)
Lemma search_candidates_bounds (i : ScenarioInputs) (c : Q) :
  non_negative_inputs i ->
  In c (search_candidates i) ->
  inject_Z (py_int (min_inclusion i)) <= inclusion (calculate_scenario i c) /\
  inclusion (calculate_scenario i c) <= box_5_scholarship i.
Proof.
  intros Hnn Hin. split; [| apply inclusion_le_scholarship].
  destruct (min_inclusion_bounds i Hnn) as [Hm0 Hm5].
  pose proof (py_int_le _ Hm0) as Hfl.
  assert (H5 : 0 <= box_5_scholarship i) by lra.
  destruct Hin as [<- | Hin].
  - pose proof (py_max_r (sch1_line_8r_current i) (min_inclusion i)) as Hs.
    fold (safe_baseline_inclusion i) in Hs.
    destruct (inclusion_clamped i (safe_baseline_inclusion i))
      as [[_ ->] | [_ ->]]; lra.
  - apply in_app_or in Hin. destruct Hin as [Hin | Hin].
    + apply coarse_steps_In in Hin. destruct Hin as [-> | (z & -> & Hz)].
      * destruct (inclusion_clamped i (box_5_scholarship i))
          as [[_ ->] | [_ ->]]; lra.
      * rewrite whole_candidate_unclamped by (trivial; lia).
        rewrite <- Zle_Qle. lia.
    + apply fine_steps_whole in Hin. destruct Hin as (z & -> & Hz).
      apply fine_steps_In in Hz. unfold start_fine, end_fine in Hz.
      rewrite whole_candidate_unclamped by (trivial; lia).
      rewrite <- Zle_Qle. lia.
Qed.

(** With a whole [min_inclusion], as whole input amounts give, the legal
    floor holds throughout the search and for its result. *)
Lemma whole_floor_respected (i : ScenarioInputs) (m : Z) :
  non_negative_inputs i ->
  min_inclusion i == inject_Z m ->
  (forall c, In c (search_candidates i) ->
             min_inclusion i <= inclusion (calculate_scenario i c)) /\
  min_inclusion i <= inclusion (snd (optimize_scholarship i)) /\
  inclusion (snd (optimize_scholarship i)) <= box_5_scholarship i.
Proof.
  intros Hnn Hm.
  assert (Hall : forall c, In c (search_candidates i) ->
                           min_inclusion i <= inclusion (calculate_scenario i c)).
  { intros c Hc.
    destruct (search_candidates_bounds i c Hnn Hc) as [Hlo _].
    rewrite (py_int_whole _ _ Hm) in Hlo. rewrite Hm. exact Hlo. }
  split; [exact Hall |].
  simpl snd. destruct (best_final_choice i) as (c & Hc & ->).
  split; [now apply Hall | apply inclusion_le_scholarship].
Qed.

(** The wholeness of [min_inclusion] is needed in [whole_floor_respected]:
    at the amounts [fractional_excess], which the input form cannot supply,
    [min_inclusion] is 1/2 and [int] rounds it down to 0, so the stages
    evaluate the inclusion amount 0 and the search returns its scenario. *)
Lemma floor_undercut_on_fractional_excess :
  non_negative_inputs fractional_excess /\
  min_inclusion fractional_excess == 1 # 2 /\
  In 0 (coarse_steps fractional_excess) /\
  In 0 (fine_steps fractional_excess) /\
  inclusion (calculate_scenario fractional_excess 0)
    < min_inclusion fractional_excess /\
  inclusion (snd (optimize_scholarship fractional_excess))
    < min_inclusion fractional_excess.
Proof.
  split; [literal_order |].
  split; [vm_compute; reflexivity |].
  split; [vm_compute; left; reflexivity |].
  split; [vm_compute; left; reflexivity |].
  split; vm_compute; reflexivity.
Qed.

(** ** Loop counts *)

Lemma coarse_steps_length (i : ScenarioInputs) :
  length (coarse_steps i)
  = S (Z.to_nat (range_length (py_int (min_inclusion i))
                              (py_int (box_5_scholarship i)) coarse_step)).
Proof.
  unfold coarse_steps, py_range.
  rewrite length_app, length_map, range_from_length. simpl. lia.
Qed.

Lemma fine_steps_length (i : ScenarioInputs) :
  length (fine_steps i)
  = Z.to_nat (range_length (start_fine i) (end_fine i + 1) 1).
Proof.
  unfold fine_steps, py_range.
  now rewrite length_map, range_from_length.
Qed.

(** C8, as worded, fails: with tuition 15000 and scholarship 14235 the coarse
    list is [0, 100, ..., 14200] followed by 14235, that is 144 candidates,
    more than [14235/100 + 1] whether the quotient is exact (143.35) or
    rounded down (143). *)
Lemma coarse_bound_counterexample :
  non_negative_inputs tuition_above_scholarship /\
  length (coarse_steps tuition_above_scholarship) = 144%nat /\
  ~ (inject_Z (Z.of_nat (length (coarse_steps tuition_above_scholarship)))
     <= box_5_scholarship tuition_above_scholarship / 100 + 1) /\
  ~ (Z.of_nat (length (coarse_steps tuition_above_scholarship))
     <= py_int (box_5_scholarship tuition_above_scholarship) / 100 + 1)%Z.
Proof.
  split; [literal_order |].
  split; [vm_compute; reflexivity |].
  split; vm_compute; intros H; apply H; reflexivity.
Qed.

(** C8, amended. For non-negative inputs the coarse stage runs at most
    [floor(scholarship_total / 100) + 2] iterations (the range from the floor
    in steps of 100, plus the appended [scholarship_total]), and the fine
    stage at most 201. *)
Theorem search_iteration_bounds (i : ScenarioInputs) :
  non_negative_inputs i ->
  (Z.of_nat (length (coarse_steps i))
   <= py_int (box_5_scholarship i) / 100 + 2)%Z /\
  inject_Z (Z.of_nat (length (coarse_steps i)))
    <= box_5_scholarship i / 100 + 2 /\
  (length (fine_steps i) <= 201)%nat.
Proof.
  intros Hnn.
  destruct (min_inclusion_bounds i Hnn) as [Hm0 Hm5].
  assert (H5 : 0 <= box_5_scholarship i) by lra.
  pose proof (py_int_nonneg _ Hm0) as Hm.
  pose proof (py_int_nonneg _ H5) as HB.
  pose proof (py_int_le _ H5) as HBle.
  set (B := py_int (box_5_scholarship i)) in *.
  assert (Hq : (0 <= B / 100)%Z) by (apply Z.div_pos; lia).
  assert (Hcount : (Z.of_nat (length (coarse_steps i)) <= B / 100 + 2)%Z).
  { rewrite coarse_steps_length. unfold range_length, coarse_step.
    fold B. destruct (Z.ltb_spec (py_int (min_inclusion i)) B) as [Hlt | Hge].
    - assert ((B - py_int (min_inclusion i) - 1) / 100 <= B / 100)%Z
        by (apply Z.div_le_mono; lia).
      assert (0 <= (B - py_int (min_inclusion i) - 1) / 100)%Z
        by (apply Z.div_pos; lia).
      lia.
    - simpl Z.to_nat. lia. }
  split; [exact Hcount |]. split.
  - assert (Hmul : (100 * (B / 100) <= B)%Z)
      by (apply Z.mul_div_le; lia).
    rewrite Zle_Qle in Hcount, Hmul.
    rewrite inject_Z_plus in Hcount. rewrite inject_Z_mult in Hmul.
    change (inject_Z 100) with 100 in Hmul.
    change (inject_Z 2) with 2 in Hcount.
    assert (Hdiv : inject_Z (B / 100) <= box_5_scholarship i / 100).
    { apply Qle_shift_div_l; lra. }
    lra.
  - rewrite fine_steps_length. unfold range_length.
    destruct (Z.ltb_spec (start_fine i) (end_fine i + 1)); [| simpl; lia].
    rewrite Z.div_1_r. unfold start_fine, end_fine, coarse_step in *. lia.
Qed.

Lemma search_iteration_bounds_witness :
  non_negative_inputs tuition_above_scholarship /\
  (Z.of_nat (length (coarse_steps tuition_above_scholarship))
   <= py_int (box_5_scholarship tuition_above_scholarship) / 100 + 2)%Z /\
  (length (fine_steps tuition_above_scholarship) <= 201)%nat.
Proof.
  assert (Hnn : non_negative_inputs tuition_above_scholarship)
    by literal_order.
  destruct (search_iteration_bounds tuition_above_scholarship Hnn)
    as (Hc & _ & Hf).
  exact (conj Hnn (conj Hc Hf)).
Defined.

(** ** Ties in the fine stage *)

(** After the fine loop either the seed survived, every candidate being
    strictly worse, or the result is the scenario of the last candidate that
    reaches the best net position seen. *)
Lemma fine_scan_last (i : ScenarioInputs) (candidates : list Q)
      (seed : ScenarioResult) :
  let r := fold_left (fine_update i) candidates seed in
  (r = seed /\
   forall y, In y candidates ->
             net_position (calculate_scenario i y) < net_position seed) \/
  (exists l1 x l2,
      candidates = l1 ++ x :: l2 /\
      r = calculate_scenario i x /\
      net_position seed <= net_position (calculate_scenario i x) /\
      (forall y, In y l1 ->
                 net_position (calculate_scenario i y)
                 <= net_position (calculate_scenario i x)) /\
      (forall y, In y l2 ->
                 net_position (calculate_scenario i y)
                 < net_position (calculate_scenario i x))).
Proof.
  induction candidates as [| z l IH] using rev_ind; cbv zeta.
  - left. split; [reflexivity | intros y []].
  - rewrite fold_left_app. cbn [fold_left].
    set (r' := fold_left (fine_update i) l seed) in *.
    cbv zeta in IH.
    destruct (fine_update_cases i r' z) as [[Hz ->] | [Hz ->]].
    + right. exists l, z, []. split; [reflexivity |].
      split; [reflexivity |].
      assert (Hseed : net_position seed <= net_position r')
        by (apply scan_improves, fine_update_improves).
      split; [lra |]. split; [| intros y []].
      intros y Hy.
      destruct IH as [[E Hall] | (l1 & x & l2 & El & E & _ & H1 & H2)].
      * specialize (Hall y Hy). lra.
      * rewrite E in Hz. rewrite El in Hy.
        apply in_app_or in Hy. destruct Hy as [Hy | [<- | Hy]].
        -- specialize (H1 y Hy). lra.
        -- exact Hz.
        -- specialize (H2 y Hy). lra.
    + destruct IH as [[E Hall] | (l1 & x & l2 & El & E & Hs & H1 & H2)].
      * left. split; [exact E |].
        intros y Hy. apply in_app_or in Hy.
        destruct Hy as [Hy | [<- | []]]; [now apply Hall |].
        rewrite <- E. exact Hz.
      * right. exists l1, x, (l2 ++ [z]).
        split; [rewrite El, <- app_assoc; reflexivity |].
        split; [exact E |]. split; [exact Hs |]. split; [exact H1 |].
        intros y Hy. apply in_app_or in Hy.
        destruct Hy as [Hy | [<- | []]]; [now apply H2 |].
        rewrite <- E. exact Hz.
Qed.

(** The fine candidates in scan order: splitting the list at a whole amount
    leaves smaller amounts before it and larger ones after it. *)
Lemma fine_steps_split (i : ScenarioInputs) (l1 l2 : list Q) (x : Q) :
  fine_steps i = l1 ++ x :: l2 ->
  exists n, x = inject_Z n /\
    (forall m, In (inject_Z m) l1 -> (m < n)%Z) /\
    (forall m, In (inject_Z m) l2 -> (n < m)%Z).
Proof.
  unfold fine_steps. intros Heq.
  apply map_eq_app in Heq. destruct Heq as (z1 & zr & Hr & <- & Hx).
  apply map_eq_cons in Hx. destruct Hx as (n & z2 & -> & <- & <-).
  exists n. split; [reflexivity |].
  unfold py_range in Hr.
  destruct (range_from_split _ 1 _ _ _ _ eq_refl Hr) as [Hlt Hgt].
  split; intros m Hm; apply in_map_iff in Hm;
    destruct Hm as (y & Hy & Hin); injection Hy as ->; auto.
Qed.

(** The coarse best has a non-negative inclusion. *)
Lemma best_coarse_val_nonneg (i : ScenarioInputs) :
  non_negative_inputs i -> 0 <= best_coarse_val i.
Proof.
  intros Hnn. unfold best_coarse_val.
  destruct (best_coarse_choice i) as (c & Hc & ->).
  assert (Hin : In c (search_candidates i)).
  { unfold search_candidates. destruct Hc as [<- | Hc]; [now left |].
    right. apply in_or_app. now left. }
  destruct (search_candidates_bounds i c Hnn Hin) as [Hlo _].
  destruct (min_inclusion_bounds i Hnn) as [Hm0 _].
  pose proof (py_int_nonneg _ Hm0) as Hz. rewrite Zle_Qle in Hz.
  change (inject_Z 0) with 0 in Hz. lra.
Qed.

(** Every whole amount of the window
    [[max(min_inclusion, best_coarse - 100), min(scholarship_total,
    best_coarse + 100)]] is a fine-stage candidate. *)
Lemma window_amount_is_fine_step (i : ScenarioInputs) (z : Z) :
  non_negative_inputs i ->
  Qmax (min_inclusion i) (best_coarse_val i - 100) <= inject_Z z ->
  inject_Z z <= Qmin (box_5_scholarship i) (best_coarse_val i + 100) ->
  In (inject_Z z) (fine_steps i).
Proof.
  intros Hnn Hlo Hhi.
  destruct (min_inclusion_bounds i Hnn) as [Hm0 Hm5].
  assert (H5 : 0 <= box_5_scholarship i) by lra.
  pose proof (best_coarse_val_nonneg i Hnn) as Hb.
  pose proof (Q.le_max_l (min_inclusion i) (best_coarse_val i - 100)).
  pose proof (Q.le_max_r (min_inclusion i) (best_coarse_val i - 100)).
  pose proof (Q.le_min_l (box_5_scholarship i) (best_coarse_val i + 100)).
  pose proof (Q.le_min_r (box_5_scholarship i) (best_coarse_val i + 100)).
  pose proof (py_int_le _ Hm0) as Hfm.
  pose proof (py_int_le _ Hb) as Hfb.
  apply fine_steps_In. unfold start_fine, end_fine, coarse_step.
  assert (py_int (min_inclusion i) <= z)%Z by (rewrite Zle_Qle; lra).
  assert (py_int (best_coarse_val i) - 100 <= z)%Z.
  { rewrite Zle_Qle. unfold Z.sub. rewrite inject_Z_plus, inject_Z_opp.
    change (inject_Z 100) with 100. lra. }
  assert (z <= py_int (box_5_scholarship i))%Z
    by (apply py_int_ge; lra).
  assert (z - 100 <= py_int (best_coarse_val i))%Z.
  { apply py_int_ge; trivial.
    unfold Z.sub. rewrite inject_Z_plus, inject_Z_opp.
    change (inject_Z 100) with 100. lra. }
  lia.
Qed.

(** For non-negative inputs, when two whole amounts [a < b] of the fine
    window both reach the maximal net position over all evaluated
    candidates, the optimizer returns the scenario of the largest whole
    amount [n] of the window reaching that maximum: [b <= n], and [n = b]
    when no window amount above [b] reaches it. *)
Lemma fine_stage_largest_maximizer (i : ScenarioInputs) (a b : Z) :
  non_negative_inputs i ->
  (a < b)%Z ->
  In (inject_Z a) (fine_steps i) ->
  In (inject_Z b) (fine_steps i) ->
  (forall c, In c (search_candidates i) ->
             net_position (calculate_scenario i c)
             <= net_position (calculate_scenario i (inject_Z a))) ->
  net_position (calculate_scenario i (inject_Z b))
    == net_position (calculate_scenario i (inject_Z a)) ->
  exists n : Z,
    In (inject_Z n) (fine_steps i) /\
    snd (optimize_scholarship i) = calculate_scenario i (inject_Z n) /\
    inclusion (snd (optimize_scholarship i)) = inject_Z n /\
    net_position (calculate_scenario i (inject_Z n))
      == net_position (calculate_scenario i (inject_Z a)) /\
    (b <= n)%Z /\
    (forall m, In (inject_Z m) (fine_steps i) ->
               net_position (calculate_scenario i (inject_Z m))
                 == net_position (calculate_scenario i (inject_Z a)) ->
               (m <= n)%Z) /\
    ((forall m, In (inject_Z m) (fine_steps i) -> (b < m)%Z ->
                net_position (calculate_scenario i (inject_Z m))
                < net_position (calculate_scenario i (inject_Z a))) ->
     n = b).
Proof.
  intros Hnn Hab Ha Hb Hmax Htie. simpl snd. unfold best_final.
  destruct (min_inclusion_bounds i Hnn) as [Hm0 Hm5].
  assert (H5 : 0 <= box_5_scholarship i) by lra.
  destruct (fine_scan_last i (fine_steps i) (best_coarse i))
    as [[_ Hall] | (l1 & x & l2 & El & -> & _ & H1 & H2)].
  - exfalso. specialize (Hall _ Ha).
    destruct (best_coarse_choice i) as (c & Hc & Ec).
    assert (Hin : In c (search_candidates i)).
    { unfold search_candidates. destruct Hc as [<- | Hc]; [now left |].
      right. apply in_or_app. now left. }
    specialize (Hmax c Hin). rewrite <- Ec in Hmax. lra.
  - destruct (fine_steps_split i l1 l2 x El) as (n & -> & Hbefore & Hafter).
    assert (Hn : In (inject_Z n) (fine_steps i))
      by (rewrite El; apply in_or_app; right; now left).
    assert (Hcases : forall m, In (inject_Z m) (fine_steps i) ->
               (net_position (calculate_scenario i (inject_Z m))
                <= net_position (calculate_scenario i (inject_Z n))
                /\ (m <= n)%Z) \/
               (net_position (calculate_scenario i (inject_Z m))
                < net_position (calculate_scenario i (inject_Z n)))).
    { intros m Hm. rewrite El in Hm. apply in_app_or in Hm.
      destruct Hm as [Hm | [Hm | Hm]].
      - left. split; [now apply H1 |]. specialize (Hbefore m Hm). lia.
      - injection Hm as <-. left. split; [apply Qle_refl | lia].
      - right. now apply H2. }
    assert (Hle : net_position (calculate_scenario i (inject_Z n))
                  <= net_position (calculate_scenario i (inject_Z a))).
    { apply Hmax. unfold search_candidates. right.
      apply in_or_app. now right. }
    assert (Heq : net_position (calculate_scenario i (inject_Z n))
                  == net_position (calculate_scenario i (inject_Z a))).
    { destruct (Hcases a Ha) as [[H _] | H]; lra. }
    assert (Hlargest : forall m, In (inject_Z m) (fine_steps i) ->
               net_position (calculate_scenario i (inject_Z m))
                 == net_position (calculate_scenario i (inject_Z a)) ->
               (m <= n)%Z).
    { intros m Hm Em. destruct (Hcases m Hm) as [[_ H] | H]; [exact H | lra]. }
    assert (Hbn : (b <= n)%Z) by (apply Hlargest; assumption).
    exists n. repeat split; trivial.
    + apply whole_candidate_unclamped; trivial.
      apply fine_steps_In in Hn. unfold end_fine in Hn. lia.
    + intros Habove.
      destruct (Z.eq_dec n b) as [E | Hne]; trivial.
      exfalso. assert (Hlt : (b < n)%Z) by lia.
      specialize (Habove n Hn Hlt). lra.
Qed.

(** Decides a comparison between two closed amounts by evaluation. *)
Ltac by_evaluation :=
  lazymatch goal with
  | |- _ <= _ => apply Qle_bool_iff; vm_compute; reflexivity
  | |- _ < _ => apply Qltb_true; vm_compute; reflexivity
  | |- _ == _ => apply Qeq_bool_iff; vm_compute; reflexivity
  | |- ~ _ == _ =>
      let H := fresh in
      intros H; apply Qeq_bool_iff in H; vm_compute in H; discriminate H
  | |- In _ _ => vm_compute; tauto
  end.

Lemma untaxed_student_flat (c : Q) :
  In c (search_candidates untaxed_student) ->
  net_position (calculate_scenario untaxed_student c) == 0.
Proof.
  assert (Hall : forallb
            (fun c => Qeq_bool
                        (net_position (calculate_scenario untaxed_student c)) 0)
            (search_candidates untaxed_student) = true)
    by (vm_compute; reflexivity).
  rewrite forallb_forall in Hall.
  intros Hc. apply Qeq_bool_iff. now apply Hall.
Qed.

(** A tie among many amounts: for [untaxed_student] every candidate has net
    position 0 and the fine window is [[0, 100]]; the optimizer returns the
    last amount of the window, 100. *)
Example many_way_tie_returns_last :
  (forall c, In c (search_candidates untaxed_student) ->
     net_position (calculate_scenario untaxed_student c) == 0) /\
  (In (inject_Z 0) (fine_steps untaxed_student) /\
   In (inject_Z 100) (fine_steps untaxed_student)) /\
  inclusion (snd (optimize_scholarship untaxed_student)) == 100.
Proof.
  split; [exact untaxed_student_flat |].
  split; [split; by_evaluation | by_evaluation].
Qed.

(** C6. For non-negative inputs in which two distinct whole inclusion
    amounts [a < b] inside the fine-stage window
    [[max(min_inclusion, best_coarse - 100),
      min(scholarship_total, best_coarse + 100)]]
    both achieve the maximal net position over all evaluated candidates (a
    two-way tie: no other fine-stage amount reaches it), the optimizer
    returns the larger one, [b]: the fine stage scans the window in
    ascending order and replaces the running best on [>=]. *)
Theorem two_way_tie_returns_larger (i : ScenarioInputs) (a b : Z) :
  non_negative_inputs i ->
  (a < b)%Z ->
  Qmax (min_inclusion i) (best_coarse_val i - 100) <= inject_Z a ->
  inject_Z b <= Qmin (box_5_scholarship i) (best_coarse_val i + 100) ->
  (forall c, In c (search_candidates i) ->
             net_position (calculate_scenario i c)
             <= net_position (calculate_scenario i (inject_Z a))) ->
  net_position (calculate_scenario i (inject_Z b))
    == net_position (calculate_scenario i (inject_Z a)) ->
  (forall m, In (inject_Z m) (fine_steps i) ->
             net_position (calculate_scenario i (inject_Z m))
               == net_position (calculate_scenario i (inject_Z a)) ->
             m = a \/ m = b) ->
  snd (optimize_scholarship i) = calculate_scenario i (inject_Z b) /\
  inclusion (snd (optimize_scholarship i)) = inject_Z b.
Proof.
  intros Hnn Hab Hlo Hhi Hmax Htie Honly.
  assert (Hord : inject_Z a <= inject_Z b) by (rewrite <- Zle_Qle; lia).
  assert (Ha : In (inject_Z a) (fine_steps i))
    by (apply window_amount_is_fine_step; trivial; lra).
  assert (Hb : In (inject_Z b) (fine_steps i))
    by (apply window_amount_is_fine_step; trivial; lra).
  destruct (fine_stage_largest_maximizer i a b Hnn Hab Ha Hb Hmax Htie)
    as (n & _ & Ebest & Einc & _ & _ & _ & Hlast).
  assert (Hn : n = b).
  { apply Hlast. intros m Hm Hbm.
    assert (Hle : net_position (calculate_scenario i (inject_Z m))
                  <= net_position (calculate_scenario i (inject_Z a))).
    { apply Hmax. unfold search_candidates. right.
      apply in_or_app. now right. }
    destruct (Qle_lt_or_eq _ _ Hle) as [Hlt | Heq]; [exact Hlt |].
    exfalso. destruct (Honly m Hm Heq); lia. }
  subst n. split; assumption.
Qed.

Lemma two_way_tie_returns_larger_witness :
  non_negative_inputs two_way_tie /\
  (10 < 11)%Z /\
  (Qmax (min_inclusion two_way_tie) (best_coarse_val two_way_tie - 100)
     <= inject_Z 10 /\
   inject_Z 11
     <= Qmin (box_5_scholarship two_way_tie)
             (best_coarse_val two_way_tie + 100)) /\
  net_position (calculate_scenario two_way_tie (inject_Z 11))
    == net_position (calculate_scenario two_way_tie (inject_Z 10)) /\
  inclusion (snd (optimize_scholarship two_way_tie)) = inject_Z 11.
Proof.
  assert (Hnn : non_negative_inputs two_way_tie) by literal_order.
  assert (Hab : (10 < 11)%Z) by lia.
  assert (Hlo : Qmax (min_inclusion two_way_tie)
                     (best_coarse_val two_way_tie - 100) <= inject_Z 10)
    by by_evaluation.
  assert (Hhi : inject_Z 11
                <= Qmin (box_5_scholarship two_way_tie)
                        (best_coarse_val two_way_tie + 100))
    by by_evaluation.
  assert (Hmax : forall c, In c (search_candidates two_way_tie) ->
            net_position (calculate_scenario two_way_tie c)
            <= net_position (calculate_scenario two_way_tie (inject_Z 10))).
  { assert (Hall : forallb
              (fun c => Qle_bool
                 (net_position (calculate_scenario two_way_tie c))
                 (net_position (calculate_scenario two_way_tie (inject_Z 10))))
              (search_candidates two_way_tie) = true)
      by (vm_compute; reflexivity).
    intros c Hc. apply Qle_bool_iff.
    exact (proj1 (forallb_forall _ _) Hall c Hc). }
  assert (Htie : net_position (calculate_scenario two_way_tie (inject_Z 11))
                 == net_position (calculate_scenario two_way_tie (inject_Z 10)))
    by by_evaluation.
  assert (Honly : forall m, In (inject_Z m) (fine_steps two_way_tie) ->
            net_position (calculate_scenario two_way_tie (inject_Z m))
              == net_position (calculate_scenario two_way_tie (inject_Z 10)) ->
            m = 10%Z \/ m = 11%Z).
  { assert (Hall : forallb
              (fun c => negb (Qeq_bool
                 (net_position (calculate_scenario two_way_tie c))
                 (net_position (calculate_scenario two_way_tie (inject_Z 10))))
                 || Qeq_bool c 10 || Qeq_bool c 11)
              (fine_steps two_way_tie) = true)
      by (vm_compute; reflexivity).
    intros m Hm Heq.
    pose proof (proj1 (forallb_forall _ _) Hall _ Hm) as Hc.
    cbv beta in Hc.
    rewrite (proj2 (Qeq_bool_iff _ _) Heq) in Hc.
    cbn [negb orb] in Hc.
    apply orb_true_iff in Hc.
    destruct Hc as [Hc | Hc]; apply Qeq_bool_iff in Hc;
      unfold Qeq in Hc; simpl in Hc; [left | right]; lia. }
  exact (conj Hnn (conj Hab (conj (conj Hlo Hhi) (conj Htie
    (proj2 (two_way_tie_returns_larger two_way_tie 10 11
              Hnn Hab Hlo Hhi Hmax Htie Honly)))))).
Defined.

(** ** State tax without a state filing *)

Lemma py_max_Qmax (a b : Q) : py_max a b == Qmax a b.
Proof.
  destruct (py_max_cases a b) as [[H ->] | [H ->]].
  - symmetry. apply Q.max_r. lra.
  - symmetry. apply Q.max_l. lra.
Qed.

Lemma no_filing_no_adjustment (i : ScenarioInputs) :
  ncd400_line_14_taxable i == 0 -> state_adjustment_factor i = 0.
Proof.
  intros Hz. unfold state_adjustment_factor.
  rewrite (proj2 (Qltb_false 0 (ncd400_line_14_taxable i))); trivial.
  rewrite Hz. lra.
Qed.

Lemma scenario_taxed_on_agi_alone (i : ScenarioInputs) (x : Q) :
  ncd400_line_14_taxable i == 0 -> 0 < nc_tax_rate i ->
  taxed_on_agi_alone i (calculate_scenario i x).
Proof.
  intros Hz Hrate.
  destruct (scenario_fields i x) as (_ & _ & Enc & _).
  set (r := calculate_scenario i x) in *.
  rewrite (no_filing_no_adjustment i Hz) in Enc.
  assert (E : nc_tax r == Qmax 0 (agi r - 12750) * nc_tax_rate i).
  { rewrite Enc, py_max_Qmax. unfold NC_STD_DEDUCTION.
    apply Qmult_comp; [| reflexivity].
    apply Q.max_compat; [reflexivity | ring]. }
  split; [exact E |].
  intros Hagi. rewrite E.
  apply Qmult_lt_0_compat; [| assumption].
  pose proof (Q.le_max_r 0 (agi r - 12750)). lra.
Qed.

(** C10. For non-negative inputs with [state_taxable_income = 0] and a
    positive state rate, the evaluator still computes
    [state_tax = max(0, new_agi - 12750) * state_tax_rate]; so every
    scenario, [manual_result] and [best_result] included, carries a strictly
    positive state tax whenever its AGI exceeds 12750. *)
Theorem state_tax_without_state_filing (i : ScenarioInputs) :
  non_negative_inputs i ->
  ncd400_line_14_taxable i == 0 ->
  0 < nc_tax_rate i ->
  (forall x, taxed_on_agi_alone i (calculate_scenario i x)) /\
  taxed_on_agi_alone i (fst (optimize_scholarship i)) /\
  taxed_on_agi_alone i (snd (optimize_scholarship i)).
Proof.
  intros _ Hz Hrate. simpl fst. simpl snd.
  split; [| split].
  - intros x. now apply scenario_taxed_on_agi_alone.
  - now apply scenario_taxed_on_agi_alone.
  - destruct (best_final_choice i) as (c & _ & ->).
    now apply scenario_taxed_on_agi_alone.
Qed.

Lemma state_tax_without_state_filing_witness :
  non_negative_inputs no_state_filing /\
  ncd400_line_14_taxable no_state_filing == 0 /\
  0 < nc_tax_rate no_state_filing /\
  12750 < agi (fst (optimize_scholarship no_state_filing)) /\
  0 < nc_tax (fst (optimize_scholarship no_state_filing)) /\
  12750 < agi (snd (optimize_scholarship no_state_filing)) /\
  0 < nc_tax (snd (optimize_scholarship no_state_filing)).
Proof.
  assert (Hnn : non_negative_inputs no_state_filing) by literal_order.
  assert (Hz : ncd400_line_14_taxable no_state_filing == 0) by reflexivity.
  assert (Hr : 0 < nc_tax_rate no_state_filing) by literal_order.
  assert (Hm : 12750 < agi (fst (optimize_scholarship no_state_filing)))
    by by_evaluation.
  assert (Hb : 12750 < agi (snd (optimize_scholarship no_state_filing)))
    by by_evaluation.
  destruct (state_tax_without_state_filing no_state_filing Hnn Hz Hr)
    as (_ & [_ Pm] & [_ Pb]).
  exact (conj Hnn (conj Hz (conj Hr
           (conj Hm (conj (Pm Hm) (conj Hb (Pb Hb))))))).
Defined.

(** ** Whole input amounts *)

(** Whole tuition and scholarship amounts give a whole legal floor, hence
    [whole_floor_respected] applies to them. *)
Lemma whole_amounts_whole_floor (i : ScenarioInputs) (tuition scholarship : Z) :
  box_1_tuition i == inject_Z tuition ->
  box_5_scholarship i == inject_Z scholarship ->
  min_inclusion i == inject_Z (Z.max 0 (scholarship - tuition)).
Proof.
  intros H1 H5.
  assert (Hd : box_5_scholarship i - box_1_tuition i
               == inject_Z (scholarship - tuition)).
  { unfold Z.sub. rewrite inject_Z_plus, inject_Z_opp, H1, H5. ring. }
  destruct (min_inclusion_cases i) as [[H ->] | [H ->]].
  - rewrite Z.max_l; [reflexivity |].
    rewrite Zle_Qle, <- Hd. change (inject_Z 0) with 0. lra.
  - rewrite Z.max_r; [exact Hd |].
    rewrite Zle_Qle, <- Hd. change (inject_Z 0) with 0. lra.
Qed.

(** C3. For non-negative inputs whose tuition and scholarship are whole
    amounts, as the input form supplies them, with
    [min_inclusion = max(0, scholarship_total - tuition_paid)]: the best
    result satisfies [min_inclusion <= best_result.inclusion <=
    scholarship_total], and no scenario evaluated in the two-stage search
    has an inclusion below [min_inclusion]. *)
Theorem legal_floor_respected
        (i : ScenarioInputs) (tuition scholarship : Z) :
  non_negative_inputs i ->
  box_1_tuition i == inject_Z tuition ->
  box_5_scholarship i == inject_Z scholarship ->
  min_inclusion i == Qmax 0 (box_5_scholarship i - box_1_tuition i) /\
  (min_inclusion i <= inclusion (snd (optimize_scholarship i)) /\
   inclusion (snd (optimize_scholarship i)) <= box_5_scholarship i) /\
  (forall c, In c (search_candidates i) ->
             ~ inclusion (calculate_scenario i c) < min_inclusion i).
Proof.
  intros Hnn H1 H5.
  pose proof (whole_amounts_whole_floor i tuition scholarship H1 H5) as Hm.
  destruct (whole_floor_respected i _ Hnn Hm) as (Hall & Hlo & Hhi).
  split; [apply py_max_Qmax |].
  split; [split; assumption |].
  intros c Hc Hlt. specialize (Hall c Hc). lra.
Qed.

Lemma legal_floor_respected_witness :
  non_negative_inputs draft_return /\
  box_1_tuition draft_return == inject_Z 13552 /\
  box_5_scholarship draft_return == inject_Z 14235 /\
  min_inclusion draft_return
    <= inclusion (snd (optimize_scholarship draft_return)) /\
  inclusion (snd (optimize_scholarship draft_return))
    <= box_5_scholarship draft_return.
Proof.
  assert (Hnn : non_negative_inputs draft_return) by literal_order.
  assert (H1 : box_1_tuition draft_return == inject_Z 13552) by reflexivity.
  assert (H5 : box_5_scholarship draft_return == inject_Z 14235)
    by reflexivity.
  exact (conj Hnn (conj H1 (conj H5
    (proj1 (proj2 (legal_floor_respected draft_return 13552 14235
                     Hnn H1 H5)))))).
Defined.

(** * Further properties of the evaluator *)

(** X1. The bracket loop computes the usual closed form: 10% of the taxable
    income up to 11925; 1192.50 plus 12% of the excess over 11925 up to
    48475; 5578.50 plus 22% of the excess over 48475 up to 103350; and
    17651 plus 24% of the excess over 103350 beyond. *)
Theorem federal_tax_closed_form (taxable : Q) :
  0 <= taxable ->
  (taxable <= 11925 -> federal_tax taxable == (10 # 100) * taxable) /\
  (11925 <= taxable -> taxable <= 48475 ->
   federal_tax taxable == (11925 # 10) + (12 # 100) * (taxable - 11925)) /\
  (48475 <= taxable -> taxable <= 103350 ->
   federal_tax taxable == (55785 # 10) + (22 # 100) * (taxable - 48475)) /\
  (103350 <= taxable ->
   federal_tax taxable == 17651 + (24 # 100) * (taxable - 103350)).
Proof.
  intros Hpos. rewrite federal_tax_piecewise by assumption.
  unfold piecewise_federal_tax.
  repeat split; intros; split_cmp; lra.
Qed.

Lemma federal_tax_closed_form_witness :
  0 <= 13699 /\ 11925 <= 13699 /\ 13699 <= 48475 /\
  federal_tax 13699 == (11925 # 10) + (12 # 100) * (13699 - 11925).
Proof.
  assert (H0 : 0 <= 13699) by literal_order.
  assert (H1 : 11925 <= 13699) by literal_order.
  assert (H2 : 13699 <= 48475) by literal_order.
  exact (conj H0 (conj H1 (conj H2
    (proj1 (proj2 (federal_tax_closed_form 13699 H0)) H1 H2)))).
Defined.

(** X3. The credit is non-refundable: it never exceeds the federal tax, so
    with a non-negative state rate the net position of a scenario is never
    positive, and it is never below minus the total tax. *)
Theorem credit_never_refunds (i : ScenarioInputs) (x : Q) :
  0 <= nc_tax_rate i ->
  let r := calculate_scenario i x in
  credit r <= fed_tax r /\
  net_position r <= 0 /\
  - (fed_tax r + nc_tax r) <= net_position r.
Proof.
  intros Hrate r.
  destruct (scenario_fields i x) as (_ & Efed & Enc & Eexp & Ecred & Enet).
  fold r in Efed, Enc, Eexp, Ecred, Enet.
  assert (Hfed : 0 <= fed_tax r)
    by (rewrite Efed; apply federal_tax_nonneg, py_max_l).
  assert (Hnc : 0 <= nc_tax r)
    by (rewrite Enc; apply Qmult_le_0_compat; [apply py_max_l | assumption]).
  assert (Hexp : 0 <= expenses_to_claim r) by (rewrite Eexp; apply py_max_l).
  assert (Hle : credit r <= fed_tax r) by (rewrite Ecred; apply py_min_r).
  assert (Hge : 0 <= credit r).
  { rewrite Ecred. apply py_min_glb; [apply py_min_glb |]; lra. }
  rewrite Enet. split; [| split]; lra.
Qed.

Lemma credit_never_refunds_witness :
  0 <= nc_tax_rate draft_return /\
  net_position (calculate_scenario draft_return 7710) <= 0.
Proof.
  assert (Hr : 0 <= nc_tax_rate draft_return) by literal_order.
  exact (conj Hr
    (proj1 (proj2 (credit_never_refunds draft_return 7710 Hr)))).
Defined.

(** X4. Re-evaluation: the evaluator applied to the inclusion it reports
    returns the same scenario, and every amount above the scholarship total
    yields the scenario of the scholarship total itself. *)
Theorem scenario_reevaluation (i : ScenarioInputs) (x : Q) :
  calculate_scenario i (inclusion (calculate_scenario i x))
    = calculate_scenario i x /\
  (box_5_scholarship i < x ->
   calculate_scenario i x = calculate_scenario i (box_5_scholarship i)).
Proof.
  assert (Hself : Qltb (box_5_scholarship i) (box_5_scholarship i) = false)
    by (apply Qltb_false, Qle_refl).
  assert (Hclamp : box_5_scholarship i < x ->
            calculate_scenario i x
            = calculate_scenario i (box_5_scholarship i)).
  { intros Hx. unfold calculate_scenario.
    rewrite (proj2 (Qltb_true _ _) Hx), Hself. reflexivity. }
  split; [| exact Hclamp].
  destruct (inclusion_clamped i x) as [[Hx ->] | [_ ->]]; [| reflexivity].
  symmetry. now apply Hclamp.
Qed.

Lemma scenario_reevaluation_witness :
  box_5_scholarship draft_return < 20000 /\
  calculate_scenario draft_return 20000
    = calculate_scenario draft_return (box_5_scholarship draft_return).
Proof.
  assert (Hx : box_5_scholarship draft_return < 20000) by literal_order.
  exact (conj Hx (proj2 (scenario_reevaluation draft_return 20000) Hx)).
Defined.

(** X5. With a reported state taxable income [> 0], the calibration makes the
    state base follow the inclusion one for one: the recomputed AGI is the
    filed AGI plus the change of inclusion, and the state tax is the rate
    applied to [max(0, state_taxable_income + change of inclusion)]; the
    filed AGI and the state deduction cancel out. *)
Theorem state_base_follows_inclusion (i : ScenarioInputs) (x : Q) :
  0 < ncd400_line_14_taxable i ->
  let r := calculate_scenario i x in
  agi r == form1040_line_11_agi i + (inclusion r - sch1_line_8r_current i) /\
  nc_tax r
    == Qmax 0 (ncd400_line_14_taxable i
               + (inclusion r - sch1_line_8r_current i))
       * nc_tax_rate i.
Proof.
  intros Hs r.
  destruct (scenario_fields i x) as (Eagi & _ & Enc & _).
  fold r in Eagi, Enc.
  assert (Hsaf : state_adjustment_factor i
                 = ncd400_line_14_taxable i
                   - (form1040_line_11_agi i - NC_STD_DEDUCTION)).
  { unfold state_adjustment_factor.
    now rewrite (proj2 (Qltb_true _ _) Hs). }
  split.
  - rewrite Eagi. unfold base_fed_income. ring.
  - rewrite Enc, py_max_Qmax, Eagi, Hsaf. unfold base_fed_income.
    apply Qmult_comp; [| reflexivity].
    apply Q.max_compat; [reflexivity | ring].
Qed.

Lemma state_base_follows_inclusion_witness :
  0 < ncd400_line_14_taxable draft_return /\
  nc_tax (calculate_scenario draft_return 7710)
    == Qmax 0 (ncd400_line_14_taxable draft_return
               + (inclusion (calculate_scenario draft_return 7710)
                  - sch1_line_8r_current draft_return))
       * nc_tax_rate draft_return.
Proof.
  assert (Hs : 0 < ncd400_line_14_taxable draft_return) by literal_order.
  exact (conj Hs (proj2 (state_base_follows_inclusion draft_return 7710 Hs))).
Defined.

(** X6. Expenses to claim, for non-negative inputs and a candidate [x] up to
    the scholarship total: from the legal floor upward they are the tuition
    minus the scholarship left tax-free, [tuition - (scholarship - x)]; at or
    below [scholarship - tuition] nothing can be claimed; they never exceed
    the tuition and reach it when the whole scholarship is declared. *)
Theorem expenses_by_inclusion (i : ScenarioInputs) (x : Q) :
  non_negative_inputs i ->
  x <= box_5_scholarship i ->
  let claimed := expenses_to_claim (calculate_scenario i x) in
  (min_inclusion i <= x ->
   claimed == box_1_tuition i - (box_5_scholarship i - x)) /\
  (x <= box_5_scholarship i - box_1_tuition i -> claimed == 0) /\
  claimed <= box_1_tuition i /\
  expenses_to_claim (calculate_scenario i (box_5_scholarship i))
    == box_1_tuition i.
Proof.
  intros (H1 & H5 & _) Hx claimed.
  assert (Eany : forall y, y <= box_5_scholarship i ->
            expenses_to_claim (calculate_scenario i y)
            = py_max 0 (box_1_tuition i
                        - py_max 0 (box_5_scholarship i - y))).
  { intros y Hy. destruct (scenario_fields i y) as (_ & _ & _ & E & _).
    rewrite E.
    destruct (inclusion_clamped i y) as [[H _] | [_ ->]]; [lra | reflexivity]. }
  unfold claimed. rewrite (Eany x Hx), (Eany _ (Qle_refl _)).
  pose proof (min_inclusion_cases i) as Hmin.
  repeat split.
  - intros Hfloor.
    destruct (py_max_cases 0 (box_5_scholarship i - x)) as [[Ht ->] | [Ht ->]];
      match goal with
      | |- py_max 0 ?e == _ =>
          destruct (py_max_cases 0 e) as [[Hq ->] | [Hq ->]]
      end;
      destruct Hmin as [[Hm Em] | [Hm Em]]; rewrite Em in Hfloor; lra.
  - intros Hlow.
    destruct (py_max_cases 0 (box_5_scholarship i - x)) as [[Ht ->] | [Ht ->]];
      match goal with
      | |- py_max 0 ?e == _ =>
          destruct (py_max_cases 0 e) as [[Hq ->] | [Hq ->]]
      end; lra.
  - destruct (py_max_cases 0 (box_5_scholarship i - x)) as [[Ht ->] | [Ht ->]];
      match goal with
      | |- py_max 0 ?e <= _ =>
          destruct (py_max_cases 0 e) as [[Hq ->] | [Hq ->]]
      end; lra.
  - destruct (py_max_cases 0 (box_5_scholarship i - box_5_scholarship i))
      as [[Ht ->] | [Ht ->]];
      match goal with
      | |- py_max 0 ?e == _ =>
          destruct (py_max_cases 0 e) as [[Hq ->] | [Hq ->]]
      end; lra.
Qed.

Lemma expenses_by_inclusion_witness :
  non_negative_inputs draft_return /\
  7710 <= box_5_scholarship draft_return /\
  min_inclusion draft_return <= 7710 /\
  expenses_to_claim (calculate_scenario draft_return 7710)
    == box_1_tuition draft_return - (box_5_scholarship draft_return - 7710).
Proof.
  assert (Hnn : non_negative_inputs draft_return) by literal_order.
  assert (Hx : 7710 <= box_5_scholarship draft_return) by literal_order.
  assert (Hf : min_inclusion draft_return <= 7710) by literal_order.
  exact (conj Hnn (conj Hx (conj Hf
    (proj1 (expenses_by_inclusion draft_return 7710 Hnn Hx) Hf)))).
Defined.

(** * Further properties of the search *)

Section ScanMaximum.

Variable i : ScenarioInputs.

(** A loop body whose result is at least as good as both the running best
    and the new scenario. *)
Variable update : ScenarioResult -> Q -> ScenarioResult.

Hypothesis update_improves :
  forall best inc, net_position best <= net_position (update best inc).

Hypothesis update_dominates :
  forall best inc,
    net_position (calculate_scenario i inc) <= net_position (update best inc).

Lemma scan_dominates (candidates : list Q) (seed : ScenarioResult) (x : Q) :
  In x candidates ->
  net_position (calculate_scenario i x)
  <= net_position (fold_left update candidates seed).
Proof.
  revert seed. induction candidates as [| inc rest IH]; intros seed Hin.
  - destruct Hin.
  - cbn [fold_left]. destruct Hin as [<- | Hin].
    + eapply Qle_trans; [apply update_dominates |].
      apply scan_improves, update_improves.
    + now apply IH.
Qed.

End ScanMaximum.

Lemma coarse_update_dominates (i : ScenarioInputs) best inc :
  net_position (calculate_scenario i inc)
  <= net_position (coarse_update i best inc).
Proof.
  destruct (coarse_update_cases i best inc) as [[H ->] | [H ->]]; lra.
Qed.

Lemma fine_update_dominates (i : ScenarioInputs) best inc :
  net_position (calculate_scenario i inc)
  <= net_position (fine_update i best inc).
Proof.
  destruct (fine_update_cases i best inc) as [[H ->] | [H ->]]; lra.
Qed.

Lemma best_coarse_le_best_final (i : ScenarioInputs) :
  net_position (best_coarse i) <= net_position (best_final i).
Proof.
  unfold best_final. apply scan_improves, fine_update_improves.
Qed.

Lemma best_final_dominates (i : ScenarioInputs) (c : Q) :
  In c (search_candidates i) ->
  net_position (calculate_scenario i c) <= net_position (best_final i).
Proof.
  pose proof (best_coarse_le_best_final i) as Hcf.
  unfold search_candidates. intros [<- | Hin].
  - eapply Qle_trans; [| exact Hcf]. unfold best_coarse.
    apply scan_improves, coarse_update_improves.
  - apply in_app_or in Hin. destruct Hin as [Hin | Hin].
    + eapply Qle_trans; [| exact Hcf]. unfold best_coarse.
      apply (scan_dominates i (coarse_update i));
        [apply coarse_update_improves | apply coarse_update_dominates
        | exact Hin].
    + unfold best_final.
      apply (scan_dominates i (fine_update i));
        [apply fine_update_improves | apply fine_update_dominates
        | exact Hin].
Qed.

(** X8. The returned best scenario is the evaluator's scenario of one of the
    amounts evaluated during the search (seed, coarse and fine candidates),
    and no evaluated amount has a higher net position; in particular the
    result is at least as good as declaring the whole scholarship, which the
    coarse stage always evaluates. *)
Theorem best_is_maximum_of_search (i : ScenarioInputs) :
  (exists c, In c (search_candidates i) /\
             snd (optimize_scholarship i) = calculate_scenario i c) /\
  (forall c, In c (search_candidates i) ->
             net_position (calculate_scenario i c)
             <= net_position (snd (optimize_scholarship i))) /\
  In (box_5_scholarship i) (coarse_steps i) /\
  net_position (calculate_scenario i (box_5_scholarship i))
    <= net_position (snd (optimize_scholarship i)).
Proof.
  simpl snd.
  assert (Hin : In (box_5_scholarship i) (coarse_steps i)).
  { unfold coarse_steps. apply in_or_app. right. now left. }
  split; [apply best_final_choice |].
  split; [intros c Hc; now apply best_final_dominates |].
  split; [exact Hin |].
  apply best_final_dominates. unfold search_candidates.
  right. apply in_or_app. now left.
Qed.

(** After the coarse loop either the seed survived, no candidate being
    strictly better, or the result is the scenario of the first candidate
    that reaches the best net position of the list. *)
Lemma coarse_scan_first (i : ScenarioInputs) (candidates : list Q)
      (seed : ScenarioResult) :
  let r := fold_left (coarse_update i) candidates seed in
  (r = seed /\
   forall y, In y candidates ->
             net_position (calculate_scenario i y) <= net_position seed) \/
  (exists l1 x l2,
      candidates = l1 ++ x :: l2 /\
      r = calculate_scenario i x /\
      net_position seed < net_position (calculate_scenario i x) /\
      (forall y, In y l1 ->
                 net_position (calculate_scenario i y)
                 < net_position (calculate_scenario i x)) /\
      (forall y, In y l2 ->
                 net_position (calculate_scenario i y)
                 <= net_position (calculate_scenario i x))).
Proof.
  cbv zeta. revert seed.
  induction candidates as [| a rest IH]; intros seed.
  - left. split; [reflexivity | intros y []].
  - cbn [fold_left].
    destruct (coarse_update_cases i seed a) as [[Ha ->] | [Ha ->]].
    + right.
      destruct (IH (calculate_scenario i a))
        as [[E Hall] | (l1 & x & l2 & El & E & Hs & H1 & H2)].
      * exists [], a, rest.
        split; [reflexivity |]. split; [exact E |]. split; [exact Ha |].
        split; [intros y [] | exact Hall].
      * exists (a :: l1), x, l2.
        split; [rewrite El; reflexivity |]. split; [exact E |].
        split; [lra |]. split; [| exact H2].
        intros y [<- | Hy]; [exact Hs | now apply H1].
    + destruct (IH seed)
        as [[E Hall] | (l1 & x & l2 & El & E & Hs & H1 & H2)].
      * left. split; [exact E |].
        intros y [<- | Hy]; [exact Ha | now apply Hall].
      * right. exists (a :: l1), x, l2.
        split; [rewrite El; reflexivity |]. split; [exact E |].
        split; [exact Hs |]. split; [| exact H2].
        intros y [<- | Hy]; [lra | now apply H1].
Qed.

(** X9. The coarse stage keeps the earliest best: its result is the seed
    scenario unless some coarse candidate is strictly better than the seed,
    and then it is the scenario of the first coarse candidate, in scan order,
    that reaches the highest net position of the coarse list (replacement on
    strict improvement only). *)
Theorem coarse_stage_keeps_first_best (i : ScenarioInputs) :
  let seed := calculate_scenario i (safe_baseline_inclusion i) in
  (best_coarse i = seed /\
   forall y, In y (coarse_steps i) ->
             net_position (calculate_scenario i y) <= net_position seed) \/
  (exists l1 x l2,
      coarse_steps i = l1 ++ x :: l2 /\
      best_coarse i = calculate_scenario i x /\
      net_position seed < net_position (calculate_scenario i x) /\
      (forall y, In y l1 ->
                 net_position (calculate_scenario i y)
                 < net_position (calculate_scenario i x)) /\
      (forall y, In y l2 ->
                 net_position (calculate_scenario i y)
                 <= net_position (calculate_scenario i x))).
Proof.
  intros seed. unfold best_coarse.
  exact (coarse_scan_first i (coarse_steps i) seed).
Qed.

(** ** The fine window *)

Lemma coarse_best_in_fine_window (i : ScenarioInputs) :
  non_negative_inputs i ->
  In (inject_Z (py_int (best_coarse_val i))) (fine_steps i).
Proof.
  intros Hnn.
  destruct (min_inclusion_bounds i Hnn) as [Hm0 Hm5].
  assert (H5 : 0 <= box_5_scholarship i) by lra.
  pose proof (best_coarse_val_nonneg i Hnn) as Hb.
  pose proof (py_int_le _ Hb) as Hfb.
  assert (Hbounds : inject_Z (py_int (min_inclusion i)) <= best_coarse_val i
                    /\ best_coarse_val i <= box_5_scholarship i).
  { unfold best_coarse_val.
    destruct (best_coarse_choice i) as (c & Hc & ->).
    apply search_candidates_bounds; trivial.
    unfold search_candidates. destruct Hc as [<- | Hc]; [now left |].
    right. apply in_or_app. now left. }
  destruct Hbounds as [Hlo Hhi].
  apply fine_steps_In. unfold start_fine, end_fine, coarse_step.
  assert (py_int (min_inclusion i) <= py_int (best_coarse_val i))%Z
    by (apply py_int_ge; assumption).
  assert (py_int (best_coarse_val i) <= py_int (box_5_scholarship i))%Z
    by (apply py_int_ge; lra).
  lia.
Qed.

(** X10. For non-negative inputs the fine window is never empty: it contains
    [int(best_coarse_val)], the whole part of the coarse best inclusion, so
    the fine stage evaluates between 1 and 201 amounts. *)
Theorem fine_window_contains_coarse_best (i : ScenarioInputs) :
  non_negative_inputs i ->
  In (inject_Z (py_int (best_coarse_val i))) (fine_steps i) /\
  (1 <= length (fine_steps i) <= 201)%nat.
Proof.
  intros Hnn.
  pose proof (coarse_best_in_fine_window i Hnn) as Hin.
  split; [exact Hin |]. split.
  - destruct (fine_steps i); [destruct Hin | simpl; lia].
  - rewrite fine_steps_length. unfold range_length.
    destruct (Z.ltb_spec (start_fine i) (end_fine i + 1)); [| simpl; lia].
    rewrite Z.div_1_r. unfold start_fine, end_fine, coarse_step in *. lia.
Qed.

Lemma fine_window_contains_coarse_best_witness :
  non_negative_inputs draft_return /\
  In (inject_Z (py_int (best_coarse_val draft_return)))
     (fine_steps draft_return) /\
  (1 <= length (fine_steps draft_return) <= 201)%nat.
Proof.
  assert (Hnn : non_negative_inputs draft_return) by literal_order.
  exact (conj Hnn (fine_window_contains_coarse_best draft_return Hnn)).
Defined.

(** ** Scenarios depend on the clamped inclusion only *)

Lemma py_max_compat (a b c : Q) : b == c -> py_max a b == py_max a c.
Proof.
  intros H. apply Qle_antisym; apply py_max_mono; lra.
Qed.

Lemma py_min_compat (a b c d : Q) :
  a == c -> b == d -> py_min a b == py_min c d.
Proof.
  intros H1 H2. apply Qle_antisym; apply py_min_mono; lra.
Qed.

Lemma federal_tax_compat (t1 t2 : Q) :
  0 <= t1 -> t1 == t2 -> federal_tax t1 == federal_tax t2.
Proof.
  intros Hpos H. apply Qle_antisym; apply federal_tax_mono; lra.
Qed.

Lemma scenario_net_compat (i : ScenarioInputs) (x y : Q) :
  inclusion (calculate_scenario i x) == inclusion (calculate_scenario i y) ->
  net_position (calculate_scenario i x)
    == net_position (calculate_scenario i y).
Proof.
  intros Hinc.
  destruct (scenario_fields i x) as (Ax & Fx & Nx & Ex & Cx & Px).
  destruct (scenario_fields i y) as (Ay & Fy & Ny & Ey & Cy & Py).
  set (rx := calculate_scenario i x) in *.
  set (ry := calculate_scenario i y) in *.
  assert (Hagi : agi rx == agi ry) by (rewrite Ax, Ay, Hinc; reflexivity).
  assert (Hfed : fed_tax rx == fed_tax ry).
  { rewrite Fx, Fy. apply federal_tax_compat; [apply py_max_l |].
    apply py_max_compat. rewrite Hagi. reflexivity. }
  assert (Hnc : nc_tax rx == nc_tax ry).
  { rewrite Nx, Ny. apply Qmult_comp; [| reflexivity].
    apply py_max_compat. rewrite Hagi. reflexivity. }
  assert (Hexp : expenses_to_claim rx == expenses_to_claim ry).
  { rewrite Ex, Ey. apply py_max_compat.
    assert (E : py_max 0 (box_5_scholarship i - inclusion rx)
                == py_max 0 (box_5_scholarship i - inclusion ry))
      by (apply py_max_compat; rewrite Hinc; reflexivity).
    rewrite E. reflexivity. }
  assert (Hcred : credit rx == credit ry).
  { rewrite Cx, Cy. apply py_min_compat; [| exact Hfed].
    apply py_min_compat; [reflexivity |]. rewrite Hexp. reflexivity. }
  rewrite Px, Py, Hcred, Hfed, Hnc. reflexivity.
Qed.

(** ** Whole amounts *)

Lemma best_coarse_val_whole (i : ScenarioInputs) (tuition scholarship current : Z) :
  box_1_tuition i == inject_Z tuition ->
  box_5_scholarship i == inject_Z scholarship ->
  sch1_line_8r_current i == inject_Z current ->
  exists z, best_coarse_val i == inject_Z z.
Proof.
  intros H1 H5 Hc.
  pose proof (whole_amounts_whole_floor i tuition scholarship H1 H5) as Hm.
  unfold best_coarse_val.
  destruct (best_coarse_choice i) as (c & Hin & ->).
  destruct (inclusion_clamped i c) as [[_ ->] | [_ ->]];
    [now exists scholarship |].
  destruct Hin as [<- | Hin].
  - unfold safe_baseline_inclusion.
    destruct (py_max_cases (sch1_line_8r_current i) (min_inclusion i))
      as [[_ ->] | [_ ->]]; eauto.
  - apply coarse_steps_In in Hin. destruct Hin as [-> | (z & -> & _)].
    + now exists scholarship.
    + exists z. reflexivity.
Qed.

(** X11. With non-negative whole amounts for tuition, scholarship and
    current inclusion (what the input form supplies), the returned best
    scenario comes from the fine stage: its inclusion is a whole amount [n]
    of the fine window, with [max(0, scholarship - tuition) <= n <=
    scholarship]. *)
Theorem whole_amounts_whole_result
        (i : ScenarioInputs) (tuition scholarship current : Z) :
  non_negative_inputs i ->
  box_1_tuition i == inject_Z tuition ->
  box_5_scholarship i == inject_Z scholarship ->
  sch1_line_8r_current i == inject_Z current ->
  exists n : Z,
    In (inject_Z n) (fine_steps i) /\
    snd (optimize_scholarship i) = calculate_scenario i (inject_Z n) /\
    inclusion (snd (optimize_scholarship i)) = inject_Z n /\
    (Z.max 0 (scholarship - tuition) <= n <= scholarship)%Z.
Proof.
  intros Hnn H1 H5 Hc. simpl snd.
  destruct (min_inclusion_bounds i Hnn) as [Hm0 Hm5].
  assert (H5pos : 0 <= box_5_scholarship i) by lra.
  pose proof (whole_amounts_whole_floor i tuition scholarship H1 H5) as Hm.
  destruct (best_coarse_val_whole i tuition scholarship current H1 H5 Hc)
    as (z & Hz).
  pose proof (coarse_best_in_fine_window i Hnn) as Hzin.
  rewrite (py_int_whole _ _ Hz) in Hzin.
  assert (Hzle : (z <= py_int (box_5_scholarship i))%Z).
  { apply fine_steps_In in Hzin. unfold end_fine in Hzin. lia. }
  assert (Hnet : net_position (calculate_scenario i (inject_Z z))
                 == net_position (best_coarse i)).
  { destruct (best_coarse_choice i) as (c & _ & Ec).
    unfold best_coarse_val in Hz. rewrite Ec in *.
    apply scenario_net_compat.
    rewrite whole_candidate_unclamped by assumption.
    symmetry. exact Hz. }
  unfold best_final.
  destruct (fine_scan_last i (fine_steps i) (best_coarse i))
    as [[_ Hall] | (l1 & x & l2 & El & -> & _ & _ & _)].
  - exfalso. specialize (Hall _ Hzin). lra.
  - destruct (fine_steps_split i l1 l2 x El) as (n & -> & _ & _).
    assert (Hn : In (inject_Z n) (fine_steps i))
      by (rewrite El; apply in_or_app; right; now left).
    pose proof Hn as Hrange. apply fine_steps_In in Hrange.
    unfold start_fine, end_fine in Hrange.
    rewrite (py_int_whole _ _ Hm), (py_int_whole _ _ H5) in Hrange.
    exists n. split; [exact Hn |]. split; [reflexivity |].
    split; [| lia].
    apply whole_candidate_unclamped; trivial.
    rewrite (py_int_whole _ _ H5). lia.
Qed.

Lemma whole_amounts_whole_result_witness :
  non_negative_inputs draft_return /\
  exists n : Z,
    inclusion (snd (optimize_scholarship draft_return)) = inject_Z n /\
    (Z.max 0 (14235 - 13552) <= n <= 14235)%Z.
Proof.
  assert (Hnn : non_negative_inputs draft_return) by literal_order.
  assert (H1 : box_1_tuition draft_return == inject_Z 13552) by reflexivity.
  assert (H5 : box_5_scholarship draft_return == inject_Z 14235)
    by reflexivity.
  assert (Hc : sch1_line_8r_current draft_return == inject_Z 7900)
    by reflexivity.
  destruct (whole_amounts_whole_result draft_return 13552 14235 7900
              Hnn H1 H5 Hc) as (n & _ & _ & Hinc & Hrange).
  exact (conj Hnn (ex_intro _ n (conj Hinc Hrange))).
Defined.

(** ** No scholarship, and the presentation decision *)

Lemma diff_eq (i : ScenarioInputs) :
  diff i = net_position (best_final i) - net_position (manual_result i).
Proof. reflexivity. Qed.

(** X12. With non-negative inputs and no scholarship, the legal floor is 0,
    every scenario of the search and both returned scenarios have inclusion
    0, the two returned net positions agree, and no opportunity is
    reported. *)
Theorem no_scholarship_collapses (i : ScenarioInputs) :
  non_negative_inputs i ->
  box_5_scholarship i == 0 ->
  min_inclusion i == 0 /\
  (forall c, In c (search_candidates i) ->
             inclusion (calculate_scenario i c) == 0) /\
  inclusion (fst (optimize_scholarship i)) == 0 /\
  inclusion (snd (optimize_scholarship i)) == 0 /\
  diff i == 0 /\
  opportunity_found i = false.
Proof.
  intros Hnn Hzero.
  destruct (min_inclusion_bounds i Hnn) as [Hm0 Hm5].
  pose proof (py_int_nonneg _ Hm0) as Hfl. rewrite Zle_Qle in Hfl.
  change (inject_Z 0) with 0 in Hfl.
  assert (Hall : forall c, In c (search_candidates i) ->
                           inclusion (calculate_scenario i c) == 0).
  { intros c Hc.
    destruct (search_candidates_bounds i c Hnn Hc) as [Hlo Hhi]. lra. }
  assert (Hman : inclusion (manual_result i) == 0).
  { unfold manual_result. destruct Hnn as (_ & _ & Hcur & _).
    destruct (inclusion_clamped i (sch1_line_8r_current i))
      as [[_ ->] | [Hle ->]]; lra. }
  assert (Hbest : inclusion (best_final i) == 0).
  { destruct (best_final_choice i) as (c & Hc & ->). now apply Hall. }
  assert (Hdiff : diff i == 0).
  { rewrite diff_eq.
    destruct (best_final_choice i) as (c & Hc & Ec).
    rewrite Ec in *. unfold manual_result in *.
    rewrite (scenario_net_compat i c (sch1_line_8r_current i)); [ring |].
    rewrite Hbest, Hman. reflexivity. }
  simpl fst. simpl snd.
  split; [lra |]. split; [exact Hall |]. split; [exact Hman |].
  split; [exact Hbest |]. split; [exact Hdiff |].
  unfold opportunity_found. apply Qltb_false. lra.
Qed.

Lemma no_scholarship_collapses_witness :
  non_negative_inputs (mkInputs 5000 0 0 30000 17250 (425 # 10000)) /\
  opportunity_found (mkInputs 5000 0 0 30000 17250 (425 # 10000)) = false.
Proof.
  assert (Hnn : non_negative_inputs
                  (mkInputs 5000 0 0 30000 17250 (425 # 10000)))
    by literal_order.
  assert (Hz : box_5_scholarship
                 (mkInputs 5000 0 0 30000 17250 (425 # 10000)) == 0)
    by reflexivity.
  exact (conj Hnn
    (proj2 (proj2 (proj2 (proj2 (proj2
       (no_scholarship_collapses _ Hnn Hz))))))).
Defined.

(** X13. When the presentation layer reports an opportunity ([diff > 5]),
    the best net position exceeds the as-filed one by more than 5 and the
    recommended inclusion differs from the inclusion of the as-filed
    scenario. *)
Theorem opportunity_changes_inclusion (i : ScenarioInputs) :
  opportunity_found i = true ->
  net_position (fst (optimize_scholarship i)) + 5
    < net_position (snd (optimize_scholarship i)) /\
  ~ inclusion (snd (optimize_scholarship i))
    == inclusion (fst (optimize_scholarship i)).
Proof.
  unfold opportunity_found. rewrite Qltb_true, diff_eq.
  simpl fst. simpl snd. intros Hdiff.
  split; [lra |].
  intros Hsame.
  destruct (best_final_choice i) as (c & _ & Ec).
  rewrite Ec in *. unfold manual_result in *.
  pose proof (scenario_net_compat i c (sch1_line_8r_current i) Hsame). lra.
Qed.

Lemma opportunity_changes_inclusion_witness :
  opportunity_found draft_return = true /\
  ~ inclusion (snd (optimize_scholarship draft_return))
    == inclusion (fst (optimize_scholarship draft_return)).
Proof.
  assert (Ho : opportunity_found draft_return = true)
    by (vm_compute; reflexivity).
  exact (conj Ho (proj2 (opportunity_changes_inclusion draft_return Ho))).
Defined.

(** X14. When the presentation layer reports the return as already optimized
    ([diff <= 5]), no amount evaluated during the search improves on the
    as-filed net position by more than 5. *)
Theorem already_optimized_bound (i : ScenarioInputs) (c : Q) :
  opportunity_found i = false ->
  In c (search_candidates i) ->
  net_position (calculate_scenario i c)
    <= net_position (fst (optimize_scholarship i)) + 5.
Proof.
  unfold opportunity_found. rewrite Qltb_false, diff_eq.
  simpl fst. intros Hdiff Hc.
  pose proof (best_final_dominates i c Hc). lra.
Qed.

Lemma already_optimized_bound_witness :
  opportunity_found untaxed_student = false /\
  In 300 (search_candidates untaxed_student) /\
  net_position (calculate_scenario untaxed_student 300)
    <= net_position (fst (optimize_scholarship untaxed_student)) + 5.
Proof.
  assert (Ho : opportunity_found untaxed_student = false)
    by (vm_compute; reflexivity).
  assert (Hc : In 300 (search_candidates untaxed_student))
    by (vm_compute; tauto).
  exact (conj Ho (conj Hc (already_optimized_bound untaxed_student 300 Ho Hc))).
Defined.

(** ** Coverage of the grid and of the window *)

(** X15. Coverage of the coarse grid: for non-negative inputs, every whole
    amount [n] with [int(min_inclusion) <= n <= int(scholarship_total)] has a
    coarse candidate [c] with [n - 100 < c < n + 1], a grid point at most 99
    below it or the appended scholarship total less than one unit above. *)
Theorem coarse_grid_coverage (i : ScenarioInputs) (n : Z) :
  non_negative_inputs i ->
  (py_int (min_inclusion i) <= n <= py_int (box_5_scholarship i))%Z ->
  exists c, In c (coarse_steps i) /\
            inject_Z n - 100 < c /\ c < inject_Z n + 1.
Proof.
  intros Hnn [Hlo Hhi].
  destruct (min_inclusion_bounds i Hnn) as [Hm0 Hm5].
  assert (H5 : 0 <= box_5_scholarship i) by lra.
  set (s := py_int (min_inclusion i)) in *.
  set (B := py_int (box_5_scholarship i)) in *.
  destruct (Z.eq_dec n B) as [-> | Hne].
  - exists (box_5_scholarship i).
    split; [unfold coarse_steps; apply in_or_app; right; now left |].
    pose proof (py_int_le _ H5) as Hfl. fold B in Hfl.
    pose proof (Qlt_floor (box_5_scholarship i)) as Hup.
    rewrite <- (py_int_floor _ H5) in Hup. fold B in Hup.
    rewrite inject_Z_plus in Hup. change (inject_Z 1) with 1 in Hup.
    split; lra.
  - assert (Hlt : (n < B)%Z) by lia.
    set (k := ((n - s) / 100)%Z).
    assert (Hk0 : (0 <= k)%Z) by (apply Z.div_pos; lia).
    assert (Hdiv : (100 * k <= n - s < 100 * k + 100)%Z).
    { unfold k. pose proof (Z.mul_div_le (n - s) 100 ltac:(lia)).
      pose proof (Z.mul_succ_div_gt (n - s) 100 ltac:(lia)). lia. }
    exists (inject_Z (s + 100 * k)). split.
    + unfold coarse_steps. apply in_or_app. left.
      apply in_map. fold s B. unfold py_range. apply range_from_In.
      exists (Z.to_nat k). unfold range_length, coarse_step.
      destruct (Z.ltb_spec s B) as [_ | Hge]; [| lia].
      assert (k <= (B - s - 1) / 100)%Z
        by (apply Z.div_le_mono; lia).
      split; lia.
    + assert (Hz : (n - 100 < s + 100 * k /\ s + 100 * k < n + 1)%Z) by lia.
      destruct Hz as [Hz1 Hz2]. rewrite Zlt_Qlt in Hz1, Hz2.
      unfold Z.sub in Hz1. rewrite inject_Z_plus, inject_Z_opp in Hz1.
      rewrite (inject_Z_plus n 1) in Hz2.
      change (inject_Z 100) with 100 in Hz1.
      change (inject_Z 1) with 1 in Hz2.
      split; lra.
Qed.

Lemma coarse_grid_coverage_witness :
  non_negative_inputs draft_return /\
  (py_int (min_inclusion draft_return) <= 7710
   <= py_int (box_5_scholarship draft_return))%Z /\
  exists c, In c (coarse_steps draft_return) /\
            inject_Z 7710 - 100 < c /\ c < inject_Z 7710 + 1.
Proof.
  assert (Hnn : non_negative_inputs draft_return) by literal_order.
  assert (Hn : (py_int (min_inclusion draft_return) <= 7710
                <= py_int (box_5_scholarship draft_return))%Z)
    by (vm_compute; split; discriminate).
  exact (conj Hnn (conj Hn (coarse_grid_coverage draft_return 7710 Hnn Hn))).
Defined.

(** X16. Optimality in the window: for non-negative inputs, no whole amount
    of [[max(min_inclusion, best_coarse - 100), min(scholarship_total,
    best_coarse + 100)]] has a higher net position than the returned best
    scenario. *)
Theorem best_is_optimal_in_window (i : ScenarioInputs) (z : Z) :
  non_negative_inputs i ->
  Qmax (min_inclusion i) (best_coarse_val i - 100) <= inject_Z z ->
  inject_Z z <= Qmin (box_5_scholarship i) (best_coarse_val i + 100) ->
  net_position (calculate_scenario i (inject_Z z))
    <= net_position (snd (optimize_scholarship i)).
Proof.
  intros Hnn Hlo Hhi. simpl snd.
  apply best_final_dominates. unfold search_candidates.
  right. apply in_or_app. right.
  now apply window_amount_is_fine_step.
Qed.

Lemma best_is_optimal_in_window_witness :
  non_negative_inputs draft_return /\
  net_position (calculate_scenario draft_return (inject_Z 7650))
    <= net_position (snd (optimize_scholarship draft_return)).
Proof.
  assert (Hnn : non_negative_inputs draft_return) by literal_order.
  assert (Hlo : Qmax (min_inclusion draft_return)
                     (best_coarse_val draft_return - 100) <= inject_Z 7650)
    by by_evaluation.
  assert (Hhi : inject_Z 7650
                <= Qmin (box_5_scholarship draft_return)
                        (best_coarse_val draft_return + 100))
    by by_evaluation.
  exact (conj Hnn (best_is_optimal_in_window draft_return 7650 Hnn Hlo Hhi)).
Defined.

(** X17. Below the federal standard deduction: a scenario whose AGI does not
    exceed 15750 has no federal tax, hence no usable credit, and its net
    position is minus its state tax. *)
Theorem no_federal_tax_no_credit (i : ScenarioInputs) (x : Q) :
  let r := calculate_scenario i x in
  agi r <= 15750 ->
  fed_tax r == 0 /\ credit r == 0 /\ net_position r == - nc_tax r.
Proof.
  intros r Hagi.
  destruct (scenario_fields i x) as (_ & Efed & _ & Eexp & Ecred & Enet).
  fold r in Efed, Eexp, Ecred, Enet.
  assert (Hfed : fed_tax r == 0).
  { rewrite Efed, py_max_keep by (unfold FED_STD_DEDUCTION; lra).
    vm_compute. reflexivity. }
  assert (Hexp : 0 <= expenses_to_claim r) by (rewrite Eexp; apply py_max_l).
  assert (Hcred : credit r == 0).
  { apply Qle_antisym.
    - rewrite Ecred. eapply Qle_trans; [apply py_min_r | lra].
    - rewrite Ecred. apply py_min_glb; [apply py_min_glb |]; lra. }
  split; [exact Hfed |]. split; [exact Hcred |].
  rewrite Enet, Hcred, Hfed. ring.
Qed.

Lemma no_federal_tax_no_credit_witness :
  agi (calculate_scenario untaxed_student 200) <= 15750 /\
  credit (calculate_scenario untaxed_student 200) == 0.
Proof.
  assert (Hagi : agi (calculate_scenario untaxed_student 200) <= 15750)
    by by_evaluation.
  exact (conj Hagi
    (proj1 (proj2 (no_federal_tax_no_credit untaxed_student 200 Hagi)))).
Defined.
